(** * Duration consistency and payment reconciliation of taas-apis

    A shallow embedding of
    - [calculateDuration] and [updateDuration] of [src/common/helper.js],
    - [postEvent] of [src/common/helper.js], and
    - [updateWorkPeriod], [processCreate] and [processUpdate] of
      [src/eventHandlers/WorkPeriodPaymentEventHandler.js],
    together with the properties their specification states, and of
    - [checkIfExists], [getPageLink], [setResHeaders], [clearObject] and
      [encodeQueryString] of [src/common/helper.js], and
    - [getUserIds], [getUserId], [getTopcoderUserById], [createUbahnUser],
      [createUserExternalProfile] and [ensureUbahnUserId] of
      [src/common/helper.js],
    with further properties of the code. *)

From stdpp Require Import base numbers option list strings gmap fin_maps pretty.
From Stdlib Require Import ZArith Lia Permutation Ascii.

Local Open Scope Z_scope.

(** ** JavaScript values

    The values that reach the duration helpers: the fields of a request body
    or of a stored row.  Numbers are the integers (the declared type of
    [duration], of day counts and of amounts); a [Date] object carries its
    time value in milliseconds since the epoch, [None] standing for the
    [NaN] of an Invalid Date. *)

Inductive val : Type :=
  | Undefined
  | Null
  | Bool (b : bool)
  | Num (n : Z)
  | Str (s : string)
  | DateObj (t : option Z).

#[global] Instance val_eq_dec : EqDecision val.
Proof. solve_decision. Defined.

(** A plain object: its own enumerable keys and their values.  A key may be
    present and hold [Undefined], which [Object.keys] still counts. *)
Abbreviation object := (gmap string val).

(** [o[k]]: a missing key reads as [undefined]. *)
Definition get (o : object) (k : string) : val := default Undefined (o !! k).

(** ToBoolean. *)
Definition truthy (v : val) : bool :=
  match v with
  | Undefined | Null => false
  | Bool b => b
  | Num n => negb (n =? 0)
  | Str s => negb (String.eqb s "")
  | DateObj _ => true
  end.

(** [_.isEqual] on these values: same type and same content; two Dates are
    equal when their time values are (two Invalid Dates are equal). *)
Definition isEqual (a b : val) : bool := bool_decide (a = b).

(** The object literal [{ startDate, endDate, duration }]. *)
Definition triple (s e d : val) : object :=
  {[ "startDate" := s; "endDate" := e; "duration" := d ]}.

(** ** Dates *)

Definition msPerDay : Z := 24 * 60 * 60 * 1000.
Definition msPerWeek : Z := 7 * 24 * 60 * 60 * 1000.
Definition maxTime : Z := 8640000000000000.

(** TimeClip of ECMAScript: a time value outside of the range is [NaN]. *)
Definition TimeClip (t : Z) : option Z :=
  if bool_decide (Z.abs t ≤ maxTime) then Some t else None.

(** What the host leaves open: how a string is read as a date
    ([Date.parse]) and as a number ([Number], here followed by the
    truncation of date-fns's [toInteger]); [None] is [NaN]. *)
Class Host : Type := {
  Date_parse : string → option Z;
  Number_parse : string → option Z
}.

Section Duration.
Context `{host : Host}.

(** [new Date(v).getTime()]. *)
Definition newDate (v : val) : option Z :=
  match v with
  | Undefined => None
  | Null => Some 0
  | Bool b => Some (if b then 1 else 0)
  | Num n => TimeClip n
  | Str s => Date_parse s ≫= TimeClip
  | DateObj t => t
  end.

(** date-fns [toInteger]: [null] and booleans give [NaN], anything else goes
    through [Number] and is truncated. *)
Definition toInteger (v : val) : option Z :=
  match v with
  | Null | Bool _ | Undefined => None
  | Num n => Some n
  | Str s => Number_parse s
  | DateObj t => t
  end.

(** date-fns [addDays], [addWeeks] and [subWeeks] on time values.  [setDate]
    works on the local calendar; the process runs in UTC, where a day is
    [msPerDay] long. *)
Definition addDays (date : option Z) (amount : option Z) : option Z :=
  match amount with
  | None => None
  | Some n => if n =? 0 then date else date ≫= λ t, TimeClip (t + n * msPerDay)
  end.

Definition addWeeks (date : option Z) (amount : option Z) : option Z :=
  addDays date ((λ n, n * 7) <$> amount).

Definition subWeeks (date : option Z) (amount : option Z) : option Z :=
  addWeeks date (Z.opp <$> amount).

(** ** Results *)

Inductive error : Type :=
  | BadRequestError (message : string).

Inductive completion : Type :=
  | Return (o : object)
  | ReturnUndefined
  | Throw (e : error).

Definition InvalidRangeError : error :=
  BadRequestError "end date must be one or multiple weeks ahead of start date".
Definition ConflictError : error :=
  BadRequestError "duration not match with the actual duration bwteen startDate and endDate".

(** The number [diffDate.getTime() / (7 * 24 * 60 * 60 * 1000)].  A time
    value is an integer below 2^53 and the divisor is below 2^30, so the
    double quotient is an integer exactly when the division is exact. *)
Inductive quotient : Type :=
  | QNaN
  | QFraction (ms : Z)
  | QInteger (n : Z).

Definition div_week (t : option Z) : quotient :=
  match t with
  | None => QNaN
  | Some d => if d mod msPerWeek =? 0 then QInteger (d / msPerWeek) else QFraction d
  end.

(** [a - b] on time values. *)
Definition time_sub (a b : option Z) : option Z :=
  a ≫= λ x, b ≫= λ y, Some (x - y).

(** [new Date(new Date(endDate).getTime() - new Date(startDate).getTime())]
    and its time value divided by one week. *)
Definition actualDuration (startDate endDate : val) : quotient :=
  let diffDate := time_sub (newDate endDate) (newDate startDate) ≫= TimeClip in
  div_week diffDate.

(** ** [calculateDuration]

    In the branch of both dates the test
    [!Number.isInteger(actualDuration) || actualDuration < 1] is the match on
    the quotient: only an integer of at least 1 gets past it, and only then
    is [actualDuration] compared with [duration] and returned. *)

Definition calculateDuration (arg : object) : completion :=
  let startDate := get arg "startDate" in
  let endDate := get arg "endDate" in
  let duration := get arg "duration" in
  if truthy startDate && negb (truthy endDate) && truthy duration then
    Return (triple startDate
                   (DateObj (addWeeks (newDate startDate) (toInteger duration)))
                   duration)
  else if negb (truthy startDate) && truthy endDate && truthy duration then
    Return (triple (DateObj (subWeeks (newDate endDate) (toInteger duration)))
                   endDate
                   duration)
  else if truthy startDate && truthy endDate then
    match actualDuration startDate endDate with
    | QInteger n =>
        if n <? 1 then Throw InvalidRangeError
        else if truthy duration && negb (bool_decide (Num n = duration))
        then Throw ConflictError
        else Return (triple startDate endDate (Num n))
    | _ => Throw InvalidRangeError
    end
  else Return ∅.

(** ** [updateDuration] *)

Definition durationFields : list string := ["startDate"; "endDate"; "duration"].

(** [data[field] && !_.isEqual(data[field], original[field])]. *)
Definition isModified (original data : object) (field : string) : bool :=
  truthy (get data field) && negb (isEqual (get data field) (get original field)).

Definition modifiedFields (original data : object) : list string :=
  foldl (λ result field,
           if isModified original data field then result ++ [field] else result)
        [] durationFields.

(** The object the single-field branch hands to [calculateDuration]. *)
Definition recomputeInput (original data : object) (modified : list string) : object :=
  foldl (λ result field,
           if bool_decide (modified !! 0%nat = Some field)
           then <[field := get data field]> result
           else <[field := get original field]> result)
        ∅ durationFields.

Definition updateDuration (original data : object) : completion :=
  let modified := modifiedFields original data in
  if bool_decide (length modified = 0%nat) then Return ∅
  else
    let fieldsCount := size data in
    if bool_decide (fieldsCount = 1%nat) then
      calculateDuration (recomputeInput original data modified)
    else if bool_decide (1 < fieldsCount)%nat then calculateDuration data
    else ReturnUndefined.

End Duration.

(** ** A sample host

    Reads the date-only form [YYYY-MM-DD] (midnight UTC) and plain decimal
    numerals; every other string is [NaN]. *)

Definition digit (c : Ascii.ascii) : option Z :=
  let n := Z.of_N (Ascii.N_of_ascii c) - 48 in
  if bool_decide (0 ≤ n ≤ 9) then Some n else None.

Fixpoint digits (acc : Z) (s : string) : option Z :=
  match s with
  | EmptyString => Some acc
  | String c s' => digit c ≫= λ d, digits (10 * acc + d) s'
  end.

Definition decimal (s : string) : option Z :=
  match s with EmptyString => None | _ => digits 0 s end.

Definition isLeap (y : Z) : bool :=
  ((y mod 4 =? 0) && negb (y mod 100 =? 0)) || (y mod 400 =? 0).

Definition daysInMonth (y m : Z) : Z :=
  if m =? 2 then (if isLeap y then 29 else 28)
  else if (m =? 4) || (m =? 6) || (m =? 9) || (m =? 11) then 30 else 31.

(** Days from 1970-01-01 to the civil date [y-m-d]. *)
Definition daysFromCivil (y m d : Z) : Z :=
  let y' := if m <=? 2 then y - 1 else y in
  let era := y' / 400 in
  let yoe := y' - era * 400 in
  let mp := (m + 9) mod 12 in
  let doy := (153 * mp + 2) / 5 + d - 1 in
  let doe := yoe * 365 + yoe / 4 - yoe / 100 + doy in
  era * 146097 + doe - 719468.

Definition parseDateOnly (s : string) : option Z :=
  if bool_decide (String.length s = 10%nat)
     && bool_decide (String.get 4 s = Some "-"%char)
     && bool_decide (String.get 7 s = Some "-"%char)
  then
    y ← decimal (String.substring 0 4 s);
    m ← decimal (String.substring 5 2 s);
    d ← decimal (String.substring 8 2 s);
    if bool_decide (1 ≤ m ≤ 12) && bool_decide (1 ≤ d ≤ daysInMonth y m)
    then Some (daysFromCivil y m d * msPerDay) else None
  else None.

Definition sampleHost : Host :=
  {| Date_parse := parseDateOnly; Number_parse := decimal |}.

(** ** Work periods and their payments *)

Record WorkPeriodPayment : Type := {
  paymentId : string;
  workPeriodId : string;
  status : string;
  days : Z;
  amount : Z
}.

(** The columns of a work period: the three derived payment columns and, in
    [attributes], every other column but the key. *)
Record Columns : Type := {
  resourceBookingId : string;
  attributes : object;
  daysPaid : Z;
  paymentTotal : Z;
  paymentStatus : string
}.

(** [workPeriodModel.toJSON()]: the key, the columns and, for a model loaded
    [withPayments], the payments. *)
Record WorkPeriod : Type := {
  id : string;
  columns : Columns;
  payments : option (list WorkPeriodPayment)
}.

#[global] Instance WorkPeriodPayment_eq_dec : EqDecision WorkPeriodPayment.
Proof. solve_decision. Defined.
#[global] Instance Columns_eq_dec : EqDecision Columns.
Proof. solve_decision. Defined.
#[global] Instance WorkPeriod_eq_dec : EqDecision WorkPeriod.
Proof. solve_decision. Defined.

(** The object [data] of [updateWorkPeriod]; [paymentStatus] is set after
    the totals. *)
Record Data : Type := {
  data_daysPaid : Z;
  data_paymentTotal : Z;
  data_paymentStatus : option string
}.

(** The columns after the keys of [data] are written over them. *)
Definition setColumns (c : Columns) (data : Data) : Columns :=
  {| resourceBookingId := resourceBookingId c;
     attributes := attributes c;
     daysPaid := data_daysPaid data;
     paymentTotal := data_paymentTotal data;
     paymentStatus := default (paymentStatus c) (data_paymentStatus data) |}.

(** [_.assign({}, workPeriod, data)]. *)
Definition assign (workPeriod : WorkPeriod) (data : Data) : WorkPeriod :=
  {| id := id workPeriod;
     columns := setColumns (columns workPeriod) data;
     payments := payments workPeriod |}.

(** [_.omit(workPeriod, 'payments')]. *)
Definition omitPayments (workPeriod : WorkPeriod) : WorkPeriod :=
  {| id := id workPeriod; columns := columns workPeriod; payments := None |}.

(** ** The message bus and the in-process dispatcher *)

Record EventOptions : Type := {
  oldValue : WorkPeriod;
  key : string
}.

(** The message handed to the bus client; its [timestamp], the wall clock
    of the call, is left out. *)
Record Message : Type := {
  topic : string;
  originator : string;
  mime_type : string;
  payload : WorkPeriod
}.

(** The argument [{ value, options }] of [eventDispatcher.handleEvent]. *)
Record Event : Type := {
  value : WorkPeriod;
  options : EventOptions
}.

(** The stored work periods by key, the stored payments, the messages sent
    to the bus and the events handed to the dispatcher, oldest first. *)
Record State : Type := {
  work_periods : gmap string Columns;
  work_period_payments : list WorkPeriodPayment;
  bus : list Message;
  dispatched : list (string * Event)
}.

Inductive failure : Type :=
  | NotFoundError (workPeriod : string).

(** ** A state and failure monad for the handlers *)

Inductive outcome (A : Type) : Type :=
  | Done (a : A) (st : State)
  | Failed (e : failure).
Arguments Done {A} a st.
Arguments Failed {A} e.

Definition M (A : Type) : Type := State → outcome A.

#[global] Instance M_ret : MRet M := λ A a st, Done a st.
#[global] Instance M_bind : MBind M := λ A B f m st,
  match m st with
  | Done a st' => f a st'
  | Failed e => Failed e
  end.

Definition modify (f : State → State) : M unit := λ st, Done tt (f st).

Record Config : Type := {
  TAAS_WORK_PERIOD_UPDATE_TOPIC : string;
  KAFKA_MESSAGE_ORIGINATOR : string
}.

(** The payload of a payment event: [payload.value] is the payment. *)
Record Payload : Type := {
  payload_value : WorkPeriodPayment
}.

(** Modelled from the spec: [WorkPeriod.findById(id, { withPayments: true })]
    of the models, which [src/] does not hold.  It loads the period together
    with its current payment records and fails when the period is not
    found. *)
Definition findById (wid : string) : M WorkPeriod := λ st,
  match work_periods st !! wid with
  | Some c =>
      Done {| id := wid; columns := c;
              payments :=
                Some (filter (λ p, workPeriodId p = wid) (work_period_payments st)) |}
           st
  | None => Failed (NotFoundError wid)
  end.

(** Modelled from the spec: [workPeriodModel.update(data)] of the models,
    which [src/] does not hold.  It applies the given columns to the stored
    period and yields the period as it is now. *)
Definition update (workPeriod : WorkPeriod) (data : Data) : M WorkPeriod := λ st,
  let updated := assign workPeriod data in
  Done updated
       {| work_periods := <[id updated := columns updated]> (work_periods st);
          work_period_payments := work_period_payments st;
          bus := bus st;
          dispatched := dispatched st |}.

(** [client.postEvent(message)] of the bus client. *)
Definition client_postEvent (message : Message) : M unit :=
  modify (λ st, {| work_periods := work_periods st;
                   work_period_payments := work_period_payments st;
                   bus := bus st ++ [message];
                   dispatched := dispatched st |}).

(** Modelled from the spec: [eventDispatcher.handleEvent(topic, event)] of
    [src/common/eventDispatcher.js], which [src/] does not hold.  The event
    is handed over, under its topic. *)
Definition handleEvent (t : string) (event : Event) : M unit :=
  modify (λ st, {| work_periods := work_periods st;
                   work_period_payments := work_period_payments st;
                   bus := bus st;
                   dispatched := dispatched st ++ [(t, event)] |}).

Section Reconciler.

(** [app-constants], [config] and [helper.calculateWorkPeriodPaymentStatus]
    are not part of [src/]: the handler is read for any of them. *)
Variable ActiveWorkPeriodPaymentStatuses : list string.
Variable calculateWorkPeriodPaymentStatus : WorkPeriod → string.
Variable config : Config.

Definition postEvent (t : string) (p : WorkPeriod) (opts : EventOptions) : M unit :=
  let message := {| topic := t;
                    originator := KAFKA_MESSAGE_ORIGINATOR config;
                    mime_type := "application/json";
                    payload := p |} in
  client_postEvent message ≫= λ _,
  handleEvent t {| value := p; options := opts |}.

(** The loop of [updateWorkPeriod] over [workPeriod.payments]. *)
Definition aggregate (ps : list WorkPeriodPayment) : Data :=
  foldl (λ data payment,
           if bool_decide (status payment ∈ ActiveWorkPeriodPaymentStatuses)
           then {| data_daysPaid := data_daysPaid data + days payment;
                   data_paymentTotal := data_paymentTotal data + amount payment;
                   data_paymentStatus := data_paymentStatus data |}
           else data)
        {| data_daysPaid := 0; data_paymentTotal := 0; data_paymentStatus := None |}
        ps.

Definition updateWorkPeriod (p : Payload) : M unit :=
  let workPeriodPayment := payload_value p in
  workPeriod ← findById (workPeriodId workPeriodPayment);
  let data := aggregate (default [] (payments workPeriod)) in
  let data :=
    {| data_daysPaid := data_daysPaid data;
       data_paymentTotal := data_paymentTotal data;
       data_paymentStatus :=
         Some (calculateWorkPeriodPaymentStatus (assign workPeriod data)) |} in
  if bool_decide (daysPaid (columns workPeriod) = data_daysPaid data)
     && bool_decide (paymentTotal (columns workPeriod) = data_paymentTotal data)
     && bool_decide (Some (paymentStatus (columns workPeriod)) = data_paymentStatus data)
  then mret tt
  else
    updated ← update workPeriod data;
    postEvent (TAAS_WORK_PERIOD_UPDATE_TOPIC config) (omitPayments updated)
      {| oldValue := workPeriod;
         key := "resourceBooking.id:" +:+ resourceBookingId (columns workPeriod) |}.

Definition processCreate (p : Payload) : M unit := updateWorkPeriod p.

Definition processUpdate (p : Payload) : M unit := updateWorkPeriod p.

End Reconciler.

(** The sum of [f] over the payments whose status is active: the reduction
    as the specification words it. *)
Definition sumOver (active : list string) (f : WorkPeriodPayment → Z)
    (ps : list WorkPeriodPayment) : Z :=
  foldr Z.add 0 (f <$> filter (λ p, status p ∈ active) ps).

(** ** Values with arrays and objects

    The values of request and response bodies.  A number is an integer or
    one of the three numbers that are none; an object lists its fields in
    the order of [Object.entries]. *)

Inductive number : Type :=
  | NaN
  | Infinity
  | NegInfinity
  | Finite (n : Z).

#[local] Set Warnings "-register-all".
Inductive json : Type :=
  | JUndefined
  | JNull
  | JBool (b : bool)
  | JNum (n : number)
  | JStr (s : string)
  | JArr (items : list json)
  | JObj (fields : list (string * json)).

(** The classes of [common/errors] that the helpers throw. *)
Inductive errorClass : Type :=
  | NotFound
  | Forbidden
  | Unauthorized.

(** What a helper throws: an [Error] with its message, the [TypeError] of
    the runtime, an error of [common/errors], or what a remote call was
    rejected with, of which [err.status] is read. *)
Inductive exn : Type :=
  | JsError (message : string)
  | TypeError
  | ApiError (class : errorClass) (message : string)
  | Rejected (status : option Z) (responseBody : json).

Inductive result (A : Type) : Type :=
  | Ok (a : A)
  | Raise (e : exn).
Arguments Ok {A} a.
Arguments Raise {A} e.

#[global] Instance result_ret : MRet result := λ A a, Ok a.
#[global] Instance result_bind : MBind result := λ A B f m,
  match m with
  | Ok a => f a
  | Raise e => Raise e
  end.

(** ** [checkIfExists] *)

(** [s.split(' ')]. *)
Fixpoint splitSpace (s : string) : list string :=
  match s with
  | EmptyString => [EmptyString]
  | String c s' =>
      if Ascii.eqb c " "%char then EmptyString :: splitSpace s'
      else match splitSpace s' with
           | w :: ws => String c w :: ws
           | [] => [String c EmptyString]
           end
  end.

Section CheckIfExists.

(** [String.prototype.toLowerCase], which follows the Unicode tables of the
    host. *)
Variable toLowerCase : string → string.

(** [items.map(s => s.toLowerCase())]: an item that is no string has no
    such method. *)
Definition lowerAll (items : list json) : result (list string) :=
  mapM (λ v, match v with
             | JStr s => Ok (toLowerCase s)
             | _ => Raise TypeError
             end) items.

Definition checkIfExists (source term : json) : result bool :=
  match source with
  | JArr items =>
      source' ← lowerAll items;
      terms ← match term with
               | JStr t => Ok (splitSpace (toLowerCase t))
               | JArr ts => lowerAll ts
               | _ => Raise (JsError "Term argument should be either a string or an array")
               end;
      Ok (existsb (λ t, bool_decide (t ∈ source')) terms)
  | _ => Raise (JsError "Source argument should be an array")
  end.

End CheckIfExists.

(** ** [clearObject]

    The argument is what the services hand over: an object, an array of
    objects, [null] or [undefined]. *)

Inductive document : Type :=
  | DUndefined
  | DNull
  | DArray (elements : list (list (string * json)))
  | DObject (fields : list (string * json)).

Definition isNull (v : json) : bool :=
  match v with JNull => true | _ => false end.

(** [_.isArray(p) && _.isEmpty(p)]. *)
Definition isEmptyArray (v : json) : bool :=
  match v with JArr [] => true | _ => false end.

(** [_.omitBy(object, predicate)] on the fields of an object. *)
Definition omitBy (predicate : json → bool) (fields : list (string * json))
  : list (string * json) :=
  filter (λ kv, predicate kv.2 = false) fields.

Definition clearObject (obj : document) : document :=
  match obj with
  | DNull => DUndefined
  | DArray elements => DArray (omitBy isNull <$> elements)
  | DObject fields => DObject (omitBy (λ p, isNull p || isEmptyArray p) fields)
  | DUndefined => DObject (omitBy (λ p, isNull p || isEmptyArray p) [])
  end.

(** ** [getPageLink] and [setResHeaders] *)

(** The request as [getPageLink] reads it: [req.protocol], [req.get('Host')],
    [req.baseUrl], [req.path] and the fields of [req.query]. *)
Record Request : Type := {
  protocol : string;
  hostHeader : string;
  baseUrl : string;
  path : string;
  query : list (string * json)
}.

(** The result of a search: [fromDb] and the three numbers of the page. *)
Record SearchResult : Type := {
  fromDb : bool;
  total : Z;
  page : Z;
  perPage : Z
}.

(** A value handed to [res.set]. *)
Inductive headerValue : Type :=
  | HNum (n : number)
  | HStr (s : string).

(** [object[k] = v] on the fields of an object: a field that exists keeps
    its place, a new one comes last. *)
Fixpoint assignField (k : string) (v : json) (fields : list (string * json))
  : list (string * json) :=
  match fields with
  | [] => [(k, v)]
  | (k', v') :: rest =>
      if decide (k' = k) then (k, v) :: rest
      else (k', v') :: assignField k v rest
  end.

(** [Math.ceil(a / b)] on integers. *)
Definition ceilDiv (a b : Z) : number :=
  if b =? 0 then
    if a =? 0 then NaN else if 0 <? a then Infinity else NegInfinity
  else Finite (- (- a / b)).

(** [a < b] on numbers. *)
Definition numLt (a b : number) : bool :=
  match a, b with
  | NaN, _ | _, NaN => false
  | Finite x, Finite y => x <? y
  | Finite _, Infinity | NegInfinity, Finite _ | NegInfinity, Infinity => true
  | _, _ => false
  end.

(** The double quote. *)
Definition dquote : string := String "034"%char EmptyString.

Section Pagination.

(** [querystring.stringify] of Node. *)
Variable stringify : list (string * json) → string.

Definition getPageLink (req : Request) (p : number) : string :=
  let q := assignField "page" (JNum p) (query req) in
  protocol req +:+ "://" +:+ hostHeader req +:+ baseUrl req +:+ path req
  +:+ "?" +:+ stringify q.

(** One value of the [Link] header. *)
Definition linkValue (req : Request) (p : number) (rel : string) : string :=
  "<" +:+ getPageLink req p +:+ ">; rel=" +:+ dquote +:+ rel +:+ dquote.

Definition setResHeaders (req : Request) (res : gmap string headerValue)
    (result : SearchResult) : gmap string headerValue :=
  if fromDb result then res
  else
    let totalPages := ceilDiv (total result) (perPage result) in
    let res :=
      if 1 <? page result
      then <["X-Prev-Page" := HNum (Finite (page result - 1))]> res else res in
    let res :=
      if numLt (Finite (page result)) totalPages
      then <["X-Next-Page" := HNum (Finite (page result + 1))]> res else res in
    let res := <["X-Page" := HNum (Finite (page result))]> res in
    let res := <["X-Per-Page" := HNum (Finite (perPage result))]> res in
    let res := <["X-Total" := HNum (Finite (total result))]> res in
    let res := <["X-Total-Pages" := HNum totalPages]> res in
    if numLt (Finite 0) totalPages then
      let link :=
        "<" +:+ getPageLink req (Finite 1) +:+ ">; rel=" +:+ dquote +:+ "first"
        +:+ dquote +:+ ", <" +:+ getPageLink req totalPages +:+ ">; rel="
        +:+ dquote +:+ "last" +:+ dquote in
      let link :=
        if 1 <? page result
        then link +:+ ", <" +:+ getPageLink req (Finite (page result - 1))
             +:+ ">; rel=" +:+ dquote +:+ "prev" +:+ dquote
        else link in
      let link :=
        if numLt (Finite (page result)) totalPages
        then link +:+ ", <" +:+ getPageLink req (Finite (page result + 1))
             +:+ ">; rel=" +:+ dquote +:+ "next" +:+ dquote
        else link in
      <["Link" := HStr link]> res
    else res.

End Pagination.

(** ** [encodeQueryString] *)

(** [typeof val === 'object']. *)
Definition isObjectType (v : json) : bool :=
  match v with
  | JNull | JArr _ | JObj _ => true
  | _ => false
  end.

Section QueryString.

(** [querystring.escape] on a string, and [String(n)] on a number. *)
Variable escape : string → string.
Variable numberToString : number → string.

(** The string [querystring.escape] makes of a value that is no object
    before it escapes it. *)
Definition leafString (v : json) : string :=
  match v with
  | JStr s => s
  | JNum n => numberToString n
  | JBool true => "true"
  | JBool false => "false"
  | _ => "undefined"
  end.

(** [[nesting + key, val].map(querystring.escape).join('=')]. *)
Definition encodeLeaf (nesting key : string) (v : json) : string :=
  escape (nesting +:+ key) +:+ "=" +:+ escape (leafString v).

(** The entries of an object are its fields, those of an array its items
    under their indices, those of a string its characters under their
    indices; a number and a boolean have none, and [null] and [undefined]
    make [Object.entries] throw. *)
Fixpoint encodeQueryString (queryObj : json) (nesting : string) : result string :=
  match queryObj with
  | JObj fields =>
      pairs ← (fix go (l : list (string * json)) : result (list string) :=
                 match l with
                 | [] => Ok []
                 | (key, v) :: l' =>
                     pair ← (if isObjectType v
                             then encodeQueryString v (nesting +:+ key +:+ ".")
                             else Ok (encodeLeaf nesting key v));
                     rest ← go l';
                     Ok (pair :: rest)
                 end) fields;
      Ok (String.concat "&" pairs)
  | JArr items =>
      pairs ← (fix go (i : nat) (l : list json) : result (list string) :=
                 match l with
                 | [] => Ok []
                 | v :: l' =>
                     let key := numberToString (Finite (Z.of_nat i)) in
                     pair ← (if isObjectType v
                             then encodeQueryString v (nesting +:+ key +:+ ".")
                             else Ok (encodeLeaf nesting key v));
                     rest ← go (S i) l';
                     Ok (pair :: rest)
                 end) 0%nat items;
      Ok (String.concat "&" pairs)
  | JStr s =>
      Ok (String.concat "&"
            (imap (λ i c, encodeLeaf nesting (numberToString (Finite (Z.of_nat i)))
                            (JStr (String c EmptyString)))
                  (String.list_ascii_of_string s)))
  | JBool _ | JNum _ => Ok EmptyString
  | JNull | JUndefined => Raise TypeError
  end.

End QueryString.

(** A [null] lies in the value, at any depth. *)
Fixpoint hasNull (v : json) : bool :=
  match v with
  | JNull => true
  | JArr items => existsb hasNull items
  | JObj fields => existsb (λ kv, hasNull kv.2) fields
  | _ => false
  end.

(** The loops of [encodeQueryString] over the fields of an object and over
    the items of an array, by themselves. *)
Section QueryStringLoops.
Variable escape : string → string.
Variable numberToString : number → string.

Definition encodeEntry (nesting key : string) (v : json) : result string :=
  if isObjectType v
  then encodeQueryString escape numberToString v (nesting +:+ key +:+ ".")
  else Ok (encodeLeaf escape numberToString nesting key v).

Fixpoint encodeFields (nesting : string) (l : list (string * json))
  : result (list string) :=
  match l with
  | [] => Ok []
  | (key, v) :: l' =>
      pair ← encodeEntry nesting key v;
      rest ← encodeFields nesting l';
      Ok (pair :: rest)
  end.

Fixpoint encodeItems (nesting : string) (i : nat) (l : list json)
  : result (list string) :=
  match l with
  | [] => Ok []
  | v :: l' =>
      pair ← encodeEntry nesting (numberToString (Finite (Z.of_nat i))) v;
      rest ← encodeItems nesting (S i) l';
      Ok (pair :: rest)
  end.

(** The leaves below an object or an array, each under its path: the keys
    and indices that lead to it, joined by dots. *)
Fixpoint leavesOf (v : json) (nesting : string) : list (string * json) :=
  match v with
  | JObj fields =>
      (fix go (l : list (string * json)) : list (string * json) :=
         match l with
         | [] => []
         | (key, x) :: l' =>
             (if isObjectType x then leavesOf x (nesting +:+ key +:+ ".")
              else [(nesting +:+ key, x)]) ++ go l'
         end) fields
  | JArr items =>
      (fix go (i : nat) (l : list json) : list (string * json) :=
         match l with
         | [] => []
         | x :: l' =>
             let key := numberToString (Finite (Z.of_nat i)) in
             (if isObjectType x then leavesOf x (nesting +:+ key +:+ ".")
              else [(nesting +:+ key, x)]) ++ go (S i) l'
         end) 0%nat items
  | _ => []
  end.

Definition leavesEntry (nesting key : string) (x : json) : list (string * json) :=
  if isObjectType x then leavesOf x (nesting +:+ key +:+ ".")
  else [(nesting +:+ key, x)].

Fixpoint leavesFields (nesting : string) (l : list (string * json))
  : list (string * json) :=
  match l with
  | [] => []
  | (key, x) :: l' => leavesEntry nesting key x ++ leavesFields nesting l'
  end.

Fixpoint leavesItems (nesting : string) (i : nat) (l : list json)
  : list (string * json) :=
  match l with
  | [] => []
  | x :: l' =>
      leavesEntry nesting (numberToString (Finite (Z.of_nat i))) x
      ++ leavesItems nesting (S i) l'
  end.

(** A leaf as the query string writes it. *)
Definition leafPair (leaf : string * json) : string :=
  escape leaf.1 +:+ "=" +:+ escape (leafString numberToString leaf.2).

End QueryStringLoops.

(** A call of [encodeQueryString] returns for a value without [null], and
    throws for [undefined] and for a value that holds a [null]. *)
Definition outcomeBy (v : json) (r : result string) : Prop :=
  (∃ s, r = Ok s ∧ v ≠ JUndefined ∧ hasNull v = false)
  ∨ (r = Raise TypeError ∧ (v = JUndefined ∨ hasNull v = true)).

(** No object and no array inside the value is empty. *)
Fixpoint filled (v : json) : bool :=
  match v with
  | JArr items => negb (bool_decide (items = [])) && forallb filled items
  | JObj fields => negb (bool_decide (fields = [])) && forallb (λ kv, filled kv.2) fields
  | _ => true
  end.

(** An object or an array without [null] and without an empty object or
    array inside has leaves, and its query string lists them. *)
Definition leavesAreWritten (escape : string → string)
    (numberToString : number → string) (v : json) : Prop :=
  ∀ nesting, isObjectType v = true → hasNull v = false → filled v = true →
    leavesOf numberToString v nesting ≠ []
    ∧ encodeQueryString escape numberToString v nesting
      = Ok (String.concat "&"
              (leafPair escape numberToString <$> leavesOf numberToString v nesting)).

(** ** Reading values *)

(** [String(v)], which is also what a template literal writes. *)
Fixpoint toStr (numberToString : number → string) (v : json) : string :=
  match v with
  | JUndefined => "undefined"
  | JNull => "null"
  | JBool true => "true"
  | JBool false => "false"
  | JNum n => numberToString n
  | JStr s => s
  | JArr items =>
      String.concat ","
        (map (λ x, match x with
                   | JUndefined | JNull => EmptyString
                   | _ => toStr numberToString x
                   end) items)
  | JObj _ => "[object Object]"
  end.

(** ToBoolean. *)
Definition jsTruthy (v : json) : bool :=
  match v with
  | JUndefined | JNull => false
  | JBool b => b
  | JNum NaN => false
  | JNum (Finite n) => negb (n =? 0)
  | JNum _ => true
  | JStr s => negb (String.eqb s "")
  | JArr _ | JObj _ => true
  end.

(** [_.isEmpty(v)]. *)
Definition isEmpty (v : json) : bool :=
  match v with
  | JArr items => bool_decide (items = [])
  | JObj fields => bool_decide (fields = [])
  | JStr s => String.eqb s ""
  | _ => true
  end.

(** The value of the field [k] among the fields of an object. *)
Fixpoint lookupField (k : string) (fields : list (string * json)) : json :=
  match fields with
  | [] => JUndefined
  | (k', v) :: rest => if decide (k' = k) then v else lookupField k rest
  end.

(** [v[0]] and [v.k] for a name [k] of a field, where [v] is neither [null]
    nor [undefined]. *)
Definition index0 (v : json) : json :=
  match v with
  | JArr (x :: _) => x
  | JStr (String c _) => JStr (String c EmptyString)
  | JObj fields => lookupField "0" fields
  | _ => JUndefined
  end.

Definition fieldOf (k : string) (v : json) : json :=
  match v with
  | JObj fields => lookupField k fields
  | _ => JUndefined
  end.

(** [v.k], which throws on [null] and [undefined]. *)
Definition member (k : string) (v : json) : result json :=
  match v with
  | JUndefined | JNull => Raise TypeError
  | _ => Ok (fieldOf k v)
  end.

(** [_.pick(v, keys)] for names of fields. *)
Definition pick (keys : list string) (v : json) : list (string * json) :=
  match v with
  | JObj fields =>
      omap (λ k, if bool_decide (k ∈ fields.*1)
                 then Some (k, lookupField k fields) else None) keys
  | _ => []
  end.

(** [a === b], for values of which at least one is no object. *)
Definition strictEq (a b : json) : bool :=
  match a, b with
  | JUndefined, JUndefined | JNull, JNull => true
  | JBool x, JBool y => bool_decide (x = y)
  | JNum (Finite x), JNum (Finite y) => x =? y
  | JNum Infinity, JNum Infinity | JNum NegInfinity, JNum NegInfinity => true
  | JStr x, JStr y => String.eqb x y
  | _, _ => false
  end.

(** ** The user helpers and their remote calls *)

Inductive method : Type :=
  | GET
  | POST.

(** A request as it is built for [superagent]: [.get] or [.post] with the
    address, [.query], [.set] and [.send]. *)
Record HttpRequest : Type := {
  req_method : method;
  req_url : string;
  req_query : list (string * json);
  req_headers : list (string * string);
  req_body : json
}.

Record ApiConfig : Type := {
  TC_API : string;
  ORG_ID : json;
  TOPCODER_USERS_API : string;
  M2M_AUDIT_USER_ID : json
}.

Definition jsonHeaders (token : string) : list (string * string) :=
  [ ("Authorization", "Bearer " +:+ token);
    ("Content-Type", "application/json");
    ("Accept", "application/json") ].

(** What a remote call comes back with: it resolves, or it is rejected with
    an error of the client, which may carry a status and the body of the
    response. *)
Inductive answer (A : Type) : Type :=
  | Resolves (a : A)
  | Rejects (status : option Z) (responseBody : json).
Arguments Resolves {A} a.
Arguments Rejects {A} status responseBody.

Definition awaited {A : Type} (r : answer A) : result A :=
  match r with
  | Resolves a => Ok a
  | Rejects status body => Raise (Rejected status body)
  end.

Section Remote.

(** The services behind the helpers: a request resolves to the body of the
    response or is rejected, and so are the two token clients.  [World] is
    whatever state these services have. *)
Variable World : Type.
Variable send : HttpRequest → World → answer json * World.
Variable machineToken : World → answer string * World.
Variable machineTokenForUbahn : World → answer string * World.
Variable config : ApiConfig.
Variable escape : string → string.
Variable numberToString : number → string.

(** A helper runs on the state of the services and on the list of the
    requests sent so far. *)
Definition Remote (A : Type) : Type :=
  World * list HttpRequest → result A * (World * list HttpRequest).

#[global] Instance Remote_ret : MRet Remote := λ A a st, (Ok a, st).
#[global] Instance Remote_bind : MBind Remote := λ A B f m st,
  match m st with
  | (Ok a, st') => f a st'
  | (Raise e, st') => (Raise e, st')
  end.

Definition throw {A : Type} (e : exn) : Remote A := λ st, (Raise e, st).

Definition now {A : Type} (r : result A) : Remote A := λ st, (r, st).

(** [try { ... } catch (err) { ... }]. *)
Definition tryCatch {A : Type} (body : Remote A) (handler : exn → Remote A)
  : Remote A := λ st,
  match body st with
  | (Ok a, st') => (Ok a, st')
  | (Raise e, st') => handler e st'
  end.

Definition request (r : HttpRequest) : Remote json := λ st,
  let '(res, w) := send r st.1 in (awaited res, (w, st.2 ++ [r])).

Definition getM2MToken : Remote string := λ st,
  let '(t, w) := machineToken st.1 in (awaited t, (w, st.2)).

Definition getM2MUbahnToken : Remote string := λ st,
  let '(t, w) := machineTokenForUbahn st.1 in (awaited t, (w, st.2)).

(** The query and the request of [getUserIds]. *)
Definition userIdsQuery (userId : json) : json :=
  JObj [ ("enrich", JBool true);
         ("externalProfile",
          JObj [ ("organizationId", ORG_ID config);
                 ("externalId", userId) ]) ].

Definition userIdsRequest (token queryString : string) : HttpRequest :=
  {| req_method := GET;
     req_url := TC_API config +:+ "/users?" +:+ queryString;
     req_query := [];
     req_headers := jsonHeaders token;
     req_body := JUndefined |}.

Definition getUserIds (userId : json) : Remote json :=
  token ← getM2MUbahnToken;
  queryString ← now (encodeQueryString escape numberToString (userIdsQuery userId) "");
  request (userIdsRequest token queryString).

Definition userNotFound (userId : json) : exn :=
  ApiError NotFound
    ("userId: " +:+ toStr numberToString userId +:+ " " +:+ dquote
     +:+ "user" +:+ dquote +:+ " not found").

Definition getUserId (userId : json) : Remote json :=
  ids ← getUserIds userId;
  if isEmpty ids then throw (userNotFound userId)
  else now (member "id" (index0 ids)).

(** The request of [getTopcoderUserById]. *)
Definition topcoderUserRequest (token : string) (userId : json) : HttpRequest :=
  {| req_method := GET;
     req_url := TOPCODER_USERS_API config;
     req_query := [ ("filter", JStr ("id=" +:+ toStr numberToString userId)) ];
     req_headers := [ ("Authorization", "Bearer " +:+ token);
                      ("Accept", "application/json") ];
     req_body := JUndefined |}.

Definition getTopcoderUserById (userId : json) : Remote json :=
  token ← getM2MToken;
  body ← request (topcoderUserRequest token userId);
  let user := index0 (fieldOf "content" (fieldOf "result" body)) in
  if negb (jsTruthy user) then
    throw (ApiError NotFound
             ("userId: " +:+ toStr numberToString userId +:+ " " +:+ dquote
              +:+ "user" +:+ dquote +:+ " not found from "
              +:+ TOPCODER_USERS_API config))
  else mret user.

(** The request of [createUbahnUser]. *)
Definition createUserRequest (token : string) (data : list (string * json))
  : HttpRequest :=
  {| req_method := POST;
     req_url := TC_API config +:+ "/users";
     req_query := [];
     req_headers := jsonHeaders token;
     req_body := JObj [ ("handle", lookupField "handle" data);
                        ("firstName", lookupField "firstName" data);
                        ("lastName", lookupField "lastName" data) ] |}.

Definition createUbahnUser (data : list (string * json))
  : Remote (list (string * json)) :=
  token ← getM2MUbahnToken;
  body ← request (createUserRequest token data);
  mret (pick ["id"] body).

(** The request of [createUserExternalProfile]. *)
Definition externalProfileRequest (token : string)
    (userId organizationId externalId : json) : HttpRequest :=
  {| req_method := POST;
     req_url := TC_API config +:+ "/users/" +:+ toStr numberToString userId
                +:+ "/externalProfiles";
     req_query := [];
     req_headers := jsonHeaders token;
     req_body := JObj [ ("organizationId", organizationId);
                        ("externalId", JStr (toStr numberToString externalId)) ] |}.

Definition createUserExternalProfile (userId organizationId externalId : json)
  : Remote unit :=
  token ← getM2MUbahnToken;
  _ ← request (externalProfileRequest token userId organizationId externalId);
  mret tt.

(** The handler of [ensureUbahnUserId] for a user that was not found. *)
Definition createFromTopcoder (userId : json) : Remote json :=
  topcoderUser ← getTopcoderUserById userId;
  user ← createUbahnUser (pick ["handle"; "firstName"; "lastName"] topcoderUser);
  _ ← createUserExternalProfile (lookupField "id" user) (ORG_ID config) userId;
  mret (lookupField "id" user).

(** [currentUser.userId] is the argument. *)
Definition ensureUbahnUserId (userId : json) : Remote json :=
  tryCatch (getUserId userId)
    (λ err,
       match err with
       | ApiError NotFound _ => createFromTopcoder userId
       | _ => throw err
       end).

(** The [getUserId] that the module exports. *)
Definition exported_getUserId (userId : json) : Remote json :=
  if strictEq userId (M2M_AUDIT_USER_ID config) then mret (M2M_AUDIT_USER_ID config)
  else ensureUbahnUserId userId.

(** A helper only adds to the list of the requests. *)
Definition extends {A : Type} (m : Remote A) : Prop :=
  ∀ st r st', m st = (r, st') → ∃ sent, st'.2 = st.2 ++ sent.

End Remote.

(** ** Notions of the specification *)

(** The headers [setResHeaders] may write. *)
Definition pageHeaders : list string :=
  ["X-Prev-Page"; "X-Next-Page"; "X-Page"; "X-Per-Page"; "X-Total";
   "X-Total-Pages"; "Link"].

(** The relations of the [Link] header of a page among [n] pages, each with
    the page it points to. *)
Definition linkRelations (result : SearchResult) (n : Z) : list (number * string) :=
  [ (Finite 1, "first"); (Finite n, "last") ]
  ++ (if 1 <? page result then [ (Finite (page result - 1), "prev") ] else [])
  ++ (if page result <? n then [ (Finite (page result + 1), "next") ] else []).


(** How many of the three fields of [arg] are supplied, that is, truthy. *)
Definition suppliedCount (arg : object) : nat :=
  length (filter (λ f, truthy (get arg f) = true) durationFields).

(** The value the single-field branch takes for field [g] when [f] is the
    field of the patch: the patch's for [f], the original's for the others. *)
Definition chosen (original data : object) (f g : string) : val :=
  if bool_decide (g = f) then get data g else get original g.

(** The last step of the updater as the specification words it: a patch of
    several keys that leaves the calculator fewer than two supplied fields is
    answered by an error. *)
Definition noOpSurfacedAsError `{host : Host} : Prop :=
  ∀ original data : object,
    modifiedFields original data ≠ [] →
    (1 < size data)%nat →
    (suppliedCount data < 2)%nat →
    ∃ e, updateDuration original data = Throw e.

(** The period as [findById] loads it from the state. *)
Definition loaded (st : State) (wid : string) (c : Columns) : WorkPeriod :=
  {| id := wid; columns := c;
     payments := Some (filter (λ p, workPeriodId p = wid) (work_period_payments st)) |}.

(** The values the pass computes again for a loaded period. *)
Definition recomputed (active : list string) (policy : WorkPeriod → string)
    (workPeriod : WorkPeriod) : Data :=
  let data := aggregate active (default [] (payments workPeriod)) in
  {| data_daysPaid := data_daysPaid data;
     data_paymentTotal := data_paymentTotal data;
     data_paymentStatus := Some (policy (assign workPeriod data)) |}.

(** The three values are those the period holds. *)
Definition sameAsStored (workPeriod : WorkPeriod) (data : Data) : Prop :=
  daysPaid (columns workPeriod) = data_daysPaid data
  ∧ paymentTotal (columns workPeriod) = data_paymentTotal data
  ∧ Some (paymentStatus (columns workPeriod)) = data_paymentStatus data.

#[global] Instance sameAsStored_dec workPeriod data :
  Decision (sameAsStored workPeriod data).
Proof. unfold sameAsStored. apply _. Defined.

(** The state a pass that persists leaves: the columns written, one message
    on the bus and one event handed to the dispatcher. *)
Definition persisted (config : Config) (workPeriod : WorkPeriod) (data : Data)
    (st : State) : State :=
  let updated := assign workPeriod data in
  {| work_periods := <[id workPeriod := columns updated]> (work_periods st);
     work_period_payments := work_period_payments st;
     bus := bus st
       ++ [ {| topic := TAAS_WORK_PERIOD_UPDATE_TOPIC config;
               originator := KAFKA_MESSAGE_ORIGINATOR config;
               mime_type := "application/json";
               payload := omitPayments updated |} ];
     dispatched := dispatched st
       ++ [ (TAAS_WORK_PERIOD_UPDATE_TOPIC config,
             {| value := omitPayments updated;
                options :=
                  {| oldValue := workPeriod;
                     key := "resourceBooking.id:"
                            +:+ resourceBookingId (columns workPeriod) |} |}) ] |}.

(** The policy gives the same status again for a period that already holds
    the status the policy gave. *)
Definition settled (policy : WorkPeriod → string) : Prop :=
  ∀ workPeriod,
    policy {| id := id workPeriod;
              columns :=
                setColumns (columns workPeriod)
                  {| data_daysPaid := daysPaid (columns workPeriod);
                     data_paymentTotal := paymentTotal (columns workPeriod);
                     data_paymentStatus := Some (policy workPeriod) |};
              payments := payments workPeriod |}
    = policy workPeriod.

(** [n] passes for the same event, one after the other. *)
Fixpoint passes (pass : M unit) (n : nat) : M unit :=
  match n with
  | O => mret tt
  | S n' => pass ≫= λ _, passes pass n'
  end.

(** ** Sample data *)

(** Dates of the examples: 2021-01-01, 2021-01-08 and 2021-01-15 at
    midnight UTC. *)
Definition jan01 : val := DateObj (Some 1609459200000).
Definition jan08 : val := DateObj (Some 1610064000000).
Definition jan15 : val := DateObj (Some 1610668800000).

(** A status policy in the manner of the helper: by the days paid against
    the days worked. *)
Definition samplePolicy (workPeriod : WorkPeriod) : string :=
  let c := columns workPeriod in
  match get (attributes c) "daysWorked" with
  | Num daysWorked =>
      if daysWorked =? 0 then "NoDays"
      else if daysPaid c =? 0 then "Pending"
      else if daysPaid c <? daysWorked then "Partial"
      else "Completed"
  | _ => "Pending"
  end.

Definition sampleConfig : Config :=
  {| TAAS_WORK_PERIOD_UPDATE_TOPIC := "taas.workperiod.update";
     KAFKA_MESSAGE_ORIGINATOR := "taas-api" |}.

Definition samplePayment (pid st : string) (d a : Z) : WorkPeriodPayment :=
  {| paymentId := pid; workPeriodId := "w1"; status := st; days := d; amount := a |}.

Definition sampleColumns : Columns :=
  {| resourceBookingId := "rb1";
     attributes := {[ "daysWorked" := Num 15 ]};
     daysPaid := 5; paymentTotal := 500; paymentStatus := "Partial" |}.

(** A period that holds 5 days and 500, with the payments that give them. *)
Definition sampleState : State :=
  {| work_periods := {[ "w1" := sampleColumns ]};
     work_period_payments :=
       [ samplePayment "p1" "Active" 5 500; samplePayment "p2" "Cancelled" 3 300 ];
     bus := [];
     dispatched := [] |}.

(** The same period after a further active payment of 5 days and 500. *)
Definition sampleStatePaid : State :=
  {| work_periods := {[ "w1" := sampleColumns ]};
     work_period_payments :=
       [ samplePayment "p1" "Active" 5 500; samplePayment "p2" "Cancelled" 3 300;
         samplePayment "p3" "Active" 5 500 ];
     bus := [];
     dispatched := [] |}.

Definition samplePayload : Payload :=
  {| payload_value := samplePayment "p3" "Active" 5 500 |}.

(** The state after the pass for the sample payload on [sampleStatePaid]. *)
Definition sampleStateAfter : State :=
  let workPeriod := loaded sampleStatePaid "w1" sampleColumns in
  persisted sampleConfig workPeriod (recomputed ["Active"] samplePolicy workPeriod)
    sampleStatePaid.

(** Host functions for the examples of the further helpers: lower case for
    the letters of ASCII, integers in decimal, and an escape and a
    [stringify] for keys and values in which nothing is to be escaped. *)
Definition lowerAscii (c : ascii) : ascii :=
  let n := nat_of_ascii c in
  if (65 <=? n)%nat && (n <=? 90)%nat then ascii_of_nat (n + 32) else c.

Fixpoint sampleToLowerCase (s : string) : string :=
  match s with
  | EmptyString => EmptyString
  | String c s' => String (lowerAscii c) (sampleToLowerCase s')
  end.

Definition sampleNumberToString (n : number) : string :=
  match n with
  | NaN => "NaN"
  | Infinity => "Infinity"
  | NegInfinity => "-Infinity"
  | Finite z => pretty z
  end.

Definition sampleEscape (s : string) : string := s.

Definition sampleStringify (q : list (string * json)) : string :=
  String.concat "&"
    ((λ kv, sampleEscape kv.1 +:+ "=" +:+ sampleEscape (toStr sampleNumberToString kv.2))
     <$> q).

(** The second page of 45 items, 20 to a page. *)
Definition sampleRequest : Request :=
  {| protocol := "https"; hostHeader := "api.topcoder-dev.com";
     baseUrl := "/v5"; path := "/jobs";
     query := [ ("perPage", JNum (Finite 20)); ("page", JNum (Finite 2)) ] |}.

Definition sampleResult : SearchResult :=
  {| fromDb := false; total := 45; page := 2; perPage := 20 |}.

(** Services for the examples of the user helpers: the state is the list of
    the answers still to be given, one to each request; the token clients
    always resolve. *)
Definition sampleSend (r : HttpRequest) (w : list (answer json))
  : answer json * list (answer json) :=
  match w with
  | a :: rest => (a, rest)
  | [] => (Rejects None JUndefined, [])
  end.

Definition sampleToken (t : string) (w : list (answer json))
  : answer string * list (answer json) := (Resolves t, w).

Definition sampleApiConfig : ApiConfig :=
  {| TC_API := "https://api.topcoder-dev.com/v5";
     ORG_ID := JStr "36ed815b-3da1-49f1-a043-aaed0a4e81ad";
     TOPCODER_USERS_API := "https://api.topcoder-dev.com/v3/users";
     M2M_AUDIT_USER_ID := JStr "00000000-0000-0000-0000-000000000000" |}.

Definition sampleQueryString : string :=
  "enrich=true&externalProfile.organizationId=36ed815b-3da1-49f1-a043-aaed0a4e81ad"
  +:+ "&externalProfile.externalId=8547899".

Definition sampleEnsure (w : list (answer json))
  : result json * (list (answer json) * list HttpRequest) :=
  ensureUbahnUserId (list (answer json)) sampleSend (sampleToken "m2m")
    (sampleToken "ubahn") sampleApiConfig sampleEscape sampleNumberToString
    (JNum (Finite 8547899)) (w, []).

(** The answers of a run that creates the user: no user in the lookup, the
    Topcoder user, the user created and the profile created. *)
Definition sampleTopcoderBody : json :=
  JObj [ ("result",
          JObj [ ("content",
                  JArr [ JObj [ ("id", JNum (Finite 8547899));
                                ("handle", JStr "pshah_manager");
                                ("firstName", JStr "Parth");
                                ("lastName", JStr "Shah") ] ]) ]) ].

Definition sampleAnswers : list (answer json) :=
  [ Resolves (JArr []);
    Resolves sampleTopcoderBody;
    Resolves (JObj [ ("id", JStr "u-2"); ("handle", JStr "pshah_manager") ]);
    Resolves (JObj []) ].

(** The payments [findById] loads for the period of an event. *)
Definition paymentsOf (p : Payload) (st : State) : list WorkPeriodPayment :=
  filter (λ q, workPeriodId q = workPeriodId (payload_value p))
         (work_period_payments st).

(** The bus and the dispatcher have been handed the same payloads under the
    same topics, in the same order. *)
Definition aligned (st : State) : Prop :=
  (λ m, (topic m, payload m)) <$> bus st
  = (λ e, (e.1, value e.2)) <$> dispatched st.

(** * Properties *)

(** ** Reading the objects the calculator builds *)

Lemma get_triple_startDate (s e d : val) : get (triple s e d) "startDate" = s.
Proof. unfold get, triple. by simplify_map_eq. Qed.

Lemma get_triple_endDate (s e d : val) : get (triple s e d) "endDate" = e.
Proof. unfold get, triple. by simplify_map_eq. Qed.

Lemma get_triple_duration (s e d : val) : get (triple s e d) "duration" = d.
Proof. unfold get, triple. by simplify_map_eq. Qed.

Create Rewrite HintDb triple.
#[global] Hint Rewrite get_triple_startDate get_triple_endDate get_triple_duration
  : triple.

(** Case analysis on a member of [durationFields]. *)
Ltac duration_field Hf :=
  unfold durationFields in Hf;
  apply elem_of_cons in Hf as [->|Hf];
  [|apply elem_of_cons in Hf as [->|Hf];
    [|apply elem_of_cons in Hf as [->|Hf]; [|by apply elem_of_nil in Hf]]].

Lemma triple_nonempty (s e d : val) : triple s e d ≠ ∅.
Proof. unfold triple. apply insert_non_empty. Qed.

Lemma TimeClip_Some (t u : Z) : TimeClip t = Some u → u = t ∧ Z.abs t ≤ maxTime.
Proof. unfold TimeClip. case_bool_decide; naive_solver. Qed.

Lemma TimeClip_in_range (t : Z) : Z.abs t ≤ maxTime → TimeClip t = Some t.
Proof. unfold TimeClip. intros. by rewrite bool_decide_eq_true_2. Qed.

Lemma div_week_integer (t : option Z) (n : Z) :
  div_week t = QInteger n ↔ ∃ d, t = Some d ∧ d = n * msPerWeek.
Proof.
  unfold div_week. destruct t as [d|]; [|split; [done|by intros (d & ? & _)]].
  assert (0 < msPerWeek) by (unfold msPerWeek; lia).
  destruct (d mod msPerWeek =? 0) eqn:E.
  - apply Z.eqb_eq in E. split.
    + intros Hq. injection Hq as <-. exists d. split; [done|].
      pose proof (Z.div_mod d msPerWeek). lia.
    + intros (d' & [= <-] & ->). f_equal. by rewrite Z.div_mul by lia.
  - apply Z.eqb_neq in E. split; [done|].
    intros (d' & [= <-] & ->). by rewrite Z.mod_mul in E by lia.
Qed.

Section DurationFacts.
Context `{host : Host}.

(** The three ways [calculateDuration] ends, by the fields that are truthy. *)
Lemma calculateDuration_start_duration (arg : object) :
  truthy (get arg "startDate") = true →
  truthy (get arg "endDate") = false →
  truthy (get arg "duration") = true →
  calculateDuration arg =
    Return (triple (get arg "startDate")
              (DateObj (addWeeks (newDate (get arg "startDate"))
                                 (toInteger (get arg "duration"))))
              (get arg "duration")).
Proof. intros Hs He Hd. unfold calculateDuration. by rewrite Hs, He, Hd. Qed.

Lemma calculateDuration_end_duration (arg : object) :
  truthy (get arg "startDate") = false →
  truthy (get arg "endDate") = true →
  truthy (get arg "duration") = true →
  calculateDuration arg =
    Return (triple (DateObj (subWeeks (newDate (get arg "endDate"))
                                      (toInteger (get arg "duration"))))
              (get arg "endDate")
              (get arg "duration")).
Proof. intros Hs He Hd. unfold calculateDuration. by rewrite Hs, He, Hd. Qed.

Lemma calculateDuration_start_end (arg : object) :
  truthy (get arg "startDate") = true →
  truthy (get arg "endDate") = true →
  calculateDuration arg =
    match actualDuration (get arg "startDate") (get arg "endDate") with
    | QInteger n =>
        if n <? 1 then Throw InvalidRangeError
        else if truthy (get arg "duration")
                && negb (bool_decide (Num n = get arg "duration"))
        then Throw ConflictError
        else Return (triple (get arg "startDate") (get arg "endDate") (Num n))
    | _ => Throw InvalidRangeError
    end.
Proof. intros Hs He. unfold calculateDuration. by rewrite Hs, He. Qed.

Lemma calculateDuration_insufficient (arg : object) :
  (truthy (get arg "startDate") = false ∧ truthy (get arg "endDate") = false)
  ∨ (truthy (get arg "startDate") = false ∧ truthy (get arg "duration") = false)
  ∨ (truthy (get arg "endDate") = false ∧ truthy (get arg "duration") = false) →
  calculateDuration arg = Return ∅.
Proof.
  unfold calculateDuration.
  intros [[-> ->]|[[-> ->]|[-> ->]]]; simpl;
    by repeat (destruct (truthy _); simpl).
Qed.

(** [calculateDuration] always returns an object or throws. *)
Lemma calculateDuration_defined (arg : object) :
  calculateDuration arg ≠ ReturnUndefined.
Proof.
  unfold calculateDuration.
  repeat (case_match; try done).
Qed.

End DurationFacts.

Section DurationClaims.
Context `{host : Host}.

Lemma actualDuration_integer (s e : val) (n : Z) :
  actualDuration s e = QInteger n ↔
  ∃ ts te, newDate s = Some ts ∧ newDate e = Some te
           ∧ Z.abs (te - ts) ≤ maxTime ∧ te - ts = n * msPerWeek.
Proof.
  unfold actualDuration. rewrite div_week_integer. split.
  - intros (d & Hd & ->).
    destruct (newDate e) as [te|], (newDate s) as [ts|]; simpl in Hd; try done.
    apply TimeClip_Some in Hd as [Hd ?]. exists ts, te. split_and!; try done; lia.
  - intros (ts & te & -> & -> & Hr & Hw). simpl.
    exists (n * msPerWeek). rewrite TimeClip_in_range by done.
    split; [by rewrite Hw|done].
Qed.


End DurationClaims.

Lemma suppliedCount_lt_2 (arg : object) :
  (suppliedCount arg < 2)%nat →
  (truthy (get arg "startDate") = false ∧ truthy (get arg "endDate") = false)
  ∨ (truthy (get arg "startDate") = false ∧ truthy (get arg "duration") = false)
  ∨ (truthy (get arg "endDate") = false ∧ truthy (get arg "duration") = false).
Proof.
  unfold suppliedCount, durationFields.
  rewrite !filter_cons, filter_nil.
  destruct (truthy (get arg "startDate")), (truthy (get arg "endDate")),
    (truthy (get arg "duration")); repeat case_decide; simpl; try done;
    try lia; auto.
Qed.

(** C6.  With both dates supplied, [actualDuration] is the gap between the
    two dates in weeks (the gap in days divided by 7); the call throws the
    range error exactly when [actualDuration] is not a positive integer,
    throws the conflict error exactly when, the range being right, a duration
    was supplied that differs from [actualDuration], and otherwise returns
    the two dates with [duration = actualDuration].  With fewer than two
    fields supplied the call returns the empty object and throws nothing.
    From 2021-01-01 to 2021-01-08 with duration 2 the call throws the
    conflict error. *)
Theorem calculateDuration_errors :
  (∀ (host : Host) (arg : object),
     let s := get arg "startDate" in
     let e := get arg "endDate" in
     let d := get arg "duration" in
     truthy s = true → truthy e = true →
     (∀ ts te n, newDate s = Some ts → newDate e = Some te →
                 Z.abs (te - ts) ≤ maxTime →
                 (actualDuration s e = QInteger n ↔ te - ts = n * 7 * msPerDay))
     ∧ (calculateDuration arg = Throw InvalidRangeError
        ↔ ¬ ∃ n, actualDuration s e = QInteger n ∧ 1 ≤ n)
     ∧ (calculateDuration arg = Throw ConflictError
        ↔ ∃ n, actualDuration s e = QInteger n ∧ 1 ≤ n
               ∧ truthy d = true ∧ d ≠ Num n)
     ∧ (∀ n, actualDuration s e = QInteger n → 1 ≤ n →
             truthy d = false ∨ d = Num n →
             calculateDuration arg = Return (triple s e (Num n))))
  ∧ (∀ (host : Host) (arg : object),
       (suppliedCount arg < 2)%nat → calculateDuration arg = Return ∅)
  ∧ calculateDuration (host := sampleHost)
      (triple (Str "2021-01-01") (Str "2021-01-08") (Num 2))
    = Throw ConflictError.
Proof.
  split_and!.
  - intros host arg s e d Hs He.
    pose proof (calculateDuration_start_end arg Hs He) as Hc.
    fold s e d in Hc. split_and!.
    + intros ts te n Hts Hte Hr. rewrite actualDuration_integer. split.
      * intros (ts' & te' & Hs' & He' & _ & Hw).
        rewrite Hts in Hs'. rewrite Hte in He'.
        injection Hs' as <-. injection He' as <-.
        rewrite Hw. unfold msPerWeek, msPerDay. lia.
      * intros Hw. exists ts, te. split_and!; try done.
        rewrite Hw. unfold msPerWeek, msPerDay. lia.
    + rewrite Hc. destruct (actualDuration s e) as [| |n].
      * split; [|done]. by intros _ (n & ? & _).
      * split; [|done]. by intros _ (n & ? & _).
      * destruct (n <? 1) eqn:E1.
        -- apply Z.ltb_lt in E1. split; [|done].
           intros _ (k & Hk & ?). injection Hk as ->. lia.
        -- apply Z.ltb_ge in E1. split.
           ++ case_match; done.
           ++ intros Hn. destruct Hn. by exists n.
    + rewrite Hc. destruct (actualDuration s e) as [| |n].
      * split; [done|]. by intros (n & ? & _).
      * split; [done|]. by intros (n & ? & _).
      * destruct (n <? 1) eqn:E1.
        -- apply Z.ltb_lt in E1. split; [done|].
           intros (k & Hk & ? & _). injection Hk as ->. lia.
        -- apply Z.ltb_ge in E1. destruct (truthy d) eqn:Td; simpl.
           ++ case_bool_decide as Hd; simpl.
              ** split; [done|]. intros (k & Hk & _ & _ & Hne).
                 injection Hk as ->. by destruct Hne.
              ** split; [|done]. intros _. exists n. by split_and!.
           ++ split; [done|]. by intros (k & _ & _ & ? & _).
    + intros n Ha Hn Hd. rewrite Hc, Ha.
      destruct (n <? 1) eqn:E1; [apply Z.ltb_lt in E1; lia|].
      destruct Hd as [->| ->]; [done|].
      by rewrite bool_decide_eq_true_2, andb_false_r.
  - intros host arg Hlt.
    by apply calculateDuration_insufficient, suppliedCount_lt_2.
  - vm_compute. reflexivity.
Qed.


(** ** [updateDuration] *)

Section UpdateFacts.
Context `{host : Host}.

Lemma modifiedFields_filter (original data : object) :
  modifiedFields original data
  = filter (λ f, isModified original data f = true) durationFields.
Proof.
  unfold modifiedFields, durationFields. rewrite !filter_cons, filter_nil. simpl.
  destruct (isModified original data "startDate"),
    (isModified original data "endDate"),
    (isModified original data "duration"); by repeat case_decide.
Qed.

Lemma elem_of_modifiedFields (original data : object) (f : string) :
  f ∈ modifiedFields original data
  ↔ f ∈ durationFields ∧ truthy (get data f) = true ∧ get data f ≠ get original f.
Proof.
  rewrite modifiedFields_filter, list_elem_of_filter. unfold isModified, isEqual.
  rewrite andb_true_iff, negb_true_iff, bool_decide_eq_false. tauto.
Qed.

Lemma modifiedFields_nil (original data : object) :
  modifiedFields original data = []
  ↔ ∀ f, f ∈ durationFields → truthy (get data f) = true →
         get data f = get original f.
Proof.
  split.
  - intros Hnil f Hf Ht. destruct (decide (get data f = get original f)); [done|].
    assert (f ∈ modifiedFields original data) as Hin
      by by apply elem_of_modifiedFields.
    rewrite Hnil in Hin. by apply elem_of_nil in Hin.
  - intros Hall. destruct (modifiedFields original data) as [|f l] eqn:E; [done|].
    assert (f ∈ modifiedFields original data) as Hin by (rewrite E; left).
    apply elem_of_modifiedFields in Hin as (Hf & Ht & Hne).
    by destruct Hne; apply Hall.
Qed.

Lemma updateDuration_unmodified (original data : object) :
  modifiedFields original data = [] → updateDuration original data = Return ∅.
Proof. intros E. unfold updateDuration. by rewrite E. Qed.

Lemma updateDuration_modified (original data : object) :
  modifiedFields original data ≠ [] →
  updateDuration original data =
    if bool_decide (size data = 1%nat)
    then calculateDuration
           (recomputeInput original data (modifiedFields original data))
    else if bool_decide (1 < size data)%nat then calculateDuration data
    else ReturnUndefined.
Proof.
  intros Hne. unfold updateDuration.
  destruct (modifiedFields original data); [done|]. done.
Qed.

(** A truthy field of an object is one of its keys. *)
Lemma truthy_lookup (data : object) (f : string) :
  truthy (get data f) = true → is_Some (data !! f).
Proof. unfold get. destruct (data !! f); [eauto|done]. Qed.

Lemma size_two_keys (data : object) (f k : string) :
  f ≠ k → is_Some (data !! f) → is_Some (data !! k) → (1 < size data)%nat.
Proof.
  intros Hne [x Hx] [y Hy].
  rewrite <- (insert_id data f x Hx), <- (insert_delete_eq data).
  rewrite map_size_insert_None by apply lookup_delete_eq.
  assert (delete f data !! k = Some y) as Hk by by rewrite lookup_delete_ne.
  assert (size (delete f data) ≠ 0%nat); [|lia].
  intros Hz. apply map_size_empty_inv in Hz. by rewrite Hz, lookup_empty in Hk.
Qed.

(** A modified field is a key, so the fall-through at the end of
    [updateDuration] is never reached. *)
Lemma updateDuration_defined (original data : object) :
  updateDuration original data ≠ ReturnUndefined.
Proof.
  destruct (decide (modifiedFields original data = [])) as [E|E].
  - by rewrite updateDuration_unmodified.
  - rewrite updateDuration_modified by done.
    repeat case_bool_decide; try apply calculateDuration_defined.
    destruct (modifiedFields original data) as [|f l] eqn:Hm; [done|].
    assert (f ∈ modifiedFields original data) as Hin by (rewrite Hm; left).
    apply elem_of_modifiedFields in Hin as (_ & Ht & _).
    apply truthy_lookup in Ht as [x Hx].
    assert (size data ≠ 0%nat); [|lia].
    intros Hz. apply map_size_empty_inv in Hz. by rewrite Hz, lookup_empty in Hx.
Qed.

End UpdateFacts.

Section UpdateClaims.
Context `{host : Host}.

Lemma map_size_1_lookup (data : object) (f : string) (x : val) :
  size data = 1%nat → data !! f = Some x → data = {[ f := x ]}.
Proof.
  intros Hsz Hx.
  rewrite <- (insert_id data f x Hx), <- (insert_delete_eq data) in Hsz |- *.
  rewrite map_size_insert_None in Hsz by apply lookup_delete_eq.
  assert (delete f data = ∅) as -> by (apply map_size_empty_inv; lia).
  done.
Qed.

Lemma recomputeInput_single (original data : object) (f : string) :
  recomputeInput original data [f]
  = triple (chosen original data f "startDate")
           (chosen original data f "endDate")
           (chosen original data f "duration").
Proof.
  unfold recomputeInput, triple, chosen, durationFields. simpl.
  apply map_eq. intros i.
  destruct (decide (i = "startDate")) as [->|?];
    [|destruct (decide (i = "endDate")) as [->|?];
      [|destruct (decide (i = "duration")) as [->|?]]];
    repeat case_bool_decide; by simplify_map_eq.
Qed.

Lemma modifiedFields_single (original : object) (f : string) (x : val) :
  modifiedFields original {[ f := x ]} ≠ [] →
  f ∈ durationFields ∧ modifiedFields original {[ f := x ]} = [f].
Proof.
  intros Hne.
  destruct (modifiedFields original {[ f := x ]}) as [|g l] eqn:E; [done|].
  assert (∀ g', g' ∈ modifiedFields original {[ f := x ]} → g' = f) as Hall.
  { intros g' Hg'. apply elem_of_modifiedFields in Hg' as (_ & Ht & _).
    apply truthy_lookup in Ht as [y Hy].
    apply lookup_singleton_Some in Hy. by destruct Hy. }
  assert (g = f) as -> by (apply Hall; rewrite E; left).
  assert (f ∈ durationFields) as Hf.
  { assert (f ∈ modifiedFields original {[ f := x ]}) as Hin by (rewrite E; left).
    by apply elem_of_modifiedFields in Hin as (? & _). }
  split; [done|].
  rewrite <- E. rewrite modifiedFields_filter.
  assert (isModified original {[ f := x ]} f = true) as Hm.
  { assert (f ∈ modifiedFields original {[ f := x ]}) as Hin by (rewrite E; left).
    rewrite modifiedFields_filter in Hin. by apply list_elem_of_filter in Hin as [? _]. }
  assert (∀ g', g' ≠ f → isModified original {[ f := x ]} g' = false) as Hother.
  { intros g' Hg'. unfold isModified, get.
    by rewrite lookup_singleton_ne. }
  unfold durationFields. rewrite !filter_cons, filter_nil.
  duration_field Hf; rewrite Hm, !Hother by done; by repeat case_decide.
Qed.

(** C9.  A field of the patch whose value is falsy is never among the
    modified fields; so, whatever the original, a patch whose differing
    fields all hold falsy values makes [updateDuration] return the empty
    object: nothing is computed again and nothing is thrown.  A patch
    [{ duration: 0 }] and a patch [{ startDate: '' }] are such. *)
Theorem updateDuration_falsy_ignored :
  (∀ (original data : object) (f : string),
     truthy (get data f) = false → f ∉ modifiedFields original data)
  ∧ (∀ (original data : object),
       (∀ f, f ∈ durationFields → get data f ≠ get original f →
             truthy (get data f) = false) →
       updateDuration original data = Return ∅)
  ∧ (∀ (original : object),
       updateDuration original {[ "duration" := Num 0 ]} = Return ∅
       ∧ updateDuration original {[ "startDate" := Str "" ]} = Return ∅).
Proof.
  assert (∀ original data : object,
            (∀ f, f ∈ durationFields → get data f ≠ get original f →
                  truthy (get data f) = false) →
            updateDuration original data = Return ∅) as Hmain.
  { intros original data Hall. apply updateDuration_unmodified.
    apply modifiedFields_nil. intros f Hf Ht.
    destruct (decide (get data f = get original f)) as [|Hne]; [done|].
    specialize (Hall f Hf Hne). congruence. }
  split_and!.
  - intros original data f Hf Hin.
    apply elem_of_modifiedFields in Hin as (_ & Ht & _). congruence.
  - done.
  - intros original. split; apply Hmain; intros f _ _; unfold get.
    + destruct (decide (f = "duration")) as [->|Hne].
      * by rewrite lookup_singleton_eq.
      * by rewrite lookup_singleton_ne.
    + destruct (decide (f = "startDate")) as [->|Hne].
      * by rewrite lookup_singleton_eq.
      * by rewrite lookup_singleton_ne.
Qed.

End UpdateClaims.

Section UpdateBranches.
Context `{host : Host}.

(** C10.  The branch is chosen by the number of keys of the patch, whatever
    the keys are: a patch with a changed duration field [f] and a key [k]
    that is none of the three fields takes the branch of several fields,
    where [calculateDuration] gets the patch alone; when no other duration
    field of the patch is truthy the result is the empty object.  With the
    original [{ startDate: 2021-01-01, duration: 1 }] the patch
    [{ duration: 2 }] gives the triple ending on 2021-01-15, the patch
    [{ duration: 2, title: 'x' }] the empty object. *)
Theorem updateDuration_counts_every_key :
  (∀ (original data : object) (f k : string),
     f ∈ durationFields → truthy (get data f) = true →
     get data f ≠ get original f →
     k ∉ durationFields → is_Some (data !! k) →
     updateDuration original data = calculateDuration data
     ∧ ((∀ g, g ∈ durationFields → g ≠ f → truthy (get data g) = false) →
        updateDuration original data = Return ∅))
  ∧ updateDuration {[ "startDate" := jan01; "duration" := Num 1 ]}
                   {[ "duration" := Num 2 ]}
    = Return (triple jan01 jan15 (Num 2))
  ∧ updateDuration {[ "startDate" := jan01; "duration" := Num 1 ]}
                   {[ "duration" := Num 2; "title" := Str "x" ]}
    = Return ∅.
Proof.
  split_and!.
  - intros original data f k Hf Ht Hne Hk Hsome.
    assert (updateDuration original data = calculateDuration data) as Heq.
    { rewrite updateDuration_modified.
      - assert (1 < size data)%nat as Hsz.
        { apply (size_two_keys data f k); [|by apply truthy_lookup|done].
          by intros ->. }
        rewrite bool_decide_eq_false_2 by lia.
        by rewrite bool_decide_eq_true_2.
      - intros Hnil.
        assert (f ∈ modifiedFields original data) as Hin
          by by apply elem_of_modifiedFields.
        rewrite Hnil in Hin. by apply elem_of_nil in Hin. }
    split; [done|]. intros Hothers. rewrite Heq.
    apply calculateDuration_insufficient.
    duration_field Hf.
    + right; right. split; apply Hothers; set_solver.
    + right; left. split; apply Hothers; set_solver.
    + left. split; apply Hothers; set_solver.
  - vm_compute. reflexivity.
  - vm_compute. reflexivity.
Qed.

End UpdateBranches.

Section UpdateAlgorithm.
Context `{host : Host}.

(** C7, as the code has it.  When no field of the patch is truthy and
    differs from the original (in particular when no field differs),
    [updateDuration] returns the empty object.  Otherwise, a patch of exactly
    one key, which is then a duration field [f], gives [calculateDuration]
    of that field of the patch with the other two fields of the original;
    a patch of several keys gives [calculateDuration] of the patch alone,
    and that result is returned as it is: the empty object, not an error,
    when fewer than two fields of the patch are supplied. *)
Theorem updateDuration_steps (original data : object) :
  ((∀ f, f ∈ durationFields → truthy (get data f) = true →
         get data f = get original f) →
   updateDuration original data = Return ∅)
  ∧ (modifiedFields original data ≠ [] → size data = 1%nat →
     ∃ f, f ∈ durationFields ∧ dom data = {[ f ]}
          ∧ updateDuration original data
            = calculateDuration
                (triple (chosen original data f "startDate")
                        (chosen original data f "endDate")
                        (chosen original data f "duration")))
  ∧ (modifiedFields original data ≠ [] → (1 < size data)%nat →
     updateDuration original data = calculateDuration data
     ∧ ((suppliedCount data < 2)%nat → updateDuration original data = Return ∅)).
Proof.
  split_and!.
  - intros Hall. by apply updateDuration_unmodified, modifiedFields_nil.
  - intros Hne Hsz.
    destruct (modifiedFields original data) as [|f l] eqn:E; [done|].
    assert (f ∈ modifiedFields original data) as Hin by (rewrite E; left).
    apply elem_of_modifiedFields in Hin as (Hf & Ht & _).
    apply truthy_lookup in Ht as [x Hx].
    pose proof (map_size_1_lookup data f x Hsz Hx) as Hd.
    assert (modifiedFields original data ≠ []) as Hne' by by rewrite E.
    rewrite Hd in Hne'. apply modifiedFields_single in Hne' as [_ Hm].
    exists f. split_and!; [done|by rewrite Hd, dom_singleton_L|].
    rewrite updateDuration_modified by by rewrite E.
    rewrite bool_decide_eq_true_2 by done.
    assert (modifiedFields original data = [f]) as -> by by rewrite Hd.
    by rewrite recomputeInput_single.
  - intros Hne Hsz.
    assert (updateDuration original data = calculateDuration data) as Heq.
    { rewrite updateDuration_modified by done.
      rewrite bool_decide_eq_false_2 by lia. by rewrite bool_decide_eq_true_2. }
    split; [done|]. intros Hlt. rewrite Heq.
    by apply calculateDuration_insufficient, suppliedCount_lt_2.
Qed.

End UpdateAlgorithm.

(** C7, as the specification has it, fails twice on the code.  On the
    complete triple from 2021-01-01 to 2021-01-08 of one week, the patch
    [{ duration: 2 }] of one field computes no field again: the call throws
    the conflict error.  A patch of several keys that leaves the calculator
    fewer than two supplied fields, [{ startDate: null, duration: 3 }] or
    [{ duration: 3, title: 'x' }], comes back as the empty object: no error
    is thrown. *)
Lemma updateDuration_spec_counterexample :
  updateDuration (host := sampleHost) (triple jan01 jan08 (Num 1))
    {[ "duration" := Num 2 ]}
  = Throw ConflictError
  ∧ updateDuration (host := sampleHost) (triple jan01 jan08 (Num 1))
      {[ "startDate" := Null; "duration" := Num 3 ]}
    = Return ∅
  ∧ updateDuration (host := sampleHost) (triple jan01 jan08 (Num 1))
      {[ "duration" := Num 3; "title" := Str "x" ]}
    = Return ∅
  ∧ ¬ noOpSurfacedAsError (host := sampleHost).
Proof.
  split_and!.
  - vm_compute. reflexivity.
  - vm_compute. reflexivity.
  - vm_compute. reflexivity.
  - intros Hspec.
    destruct (Hspec (triple jan01 jan08 (Num 1))
                    {[ "startDate" := Null; "duration" := Num 3 ]})
      as [e He].
    + vm_compute. discriminate.
    + vm_compute. lia.
    + vm_compute. lia.
    + vm_compute in He. discriminate He.
Qed.

(** ** The payment aggregation *)

Lemma aggregate_from (active : list string) (ps : list WorkPeriodPayment) (acc : Data) :
  foldl (λ data payment,
           if bool_decide (status payment ∈ active)
           then {| data_daysPaid := data_daysPaid data + days payment;
                   data_paymentTotal := data_paymentTotal data + amount payment;
                   data_paymentStatus := data_paymentStatus data |}
           else data) acc ps
  = {| data_daysPaid := data_daysPaid acc + sumOver active days ps;
       data_paymentTotal := data_paymentTotal acc + sumOver active amount ps;
       data_paymentStatus := data_paymentStatus acc |}.
Proof.
  revert acc. induction ps as [|p ps IH]; intros acc.
  - unfold sumOver. simpl. destruct acc. simpl. f_equal; lia.
  - simpl. rewrite IH. unfold sumOver. rewrite !filter_cons.
    case_bool_decide; case_decide; try done; simpl; f_equal;
      symmetry; apply Z.add_assoc.
Qed.

Lemma sumOver_Permutation (active : list string) (f : WorkPeriodPayment → Z)
    (ps ps' : list WorkPeriodPayment) :
  ps ≡ₚ ps' → sumOver active f ps = sumOver active f ps'.
Proof.
  unfold sumOver. induction 1 as [|p ps ps' _ IH|p q ps|ps ps' ps'' _ IH1 _ IH2].
  - done.
  - rewrite !filter_cons. case_decide; simpl; [f_equal|]; apply IH.
  - rewrite !filter_cons. repeat case_decide; simpl; lia.
  - congruence.
Qed.

Lemma aggregate_sumOver (active : list string) (ps : list WorkPeriodPayment) :
  aggregate active ps
  = {| data_daysPaid := sumOver active days ps;
       data_paymentTotal := sumOver active amount ps;
       data_paymentStatus := None |}.
Proof. unfold aggregate. by rewrite aggregate_from. Qed.


(** ** The reconciliation pass *)

Section ReconcilerClaims.
Variable active : list string.
Variable policy : WorkPeriod → string.
Variable config : Config.

Lemma updateWorkPeriod_missing (p : Payload) (st : State) :
  work_periods st !! workPeriodId (payload_value p) = None →
  updateWorkPeriod active policy config p st
  = Failed (NotFoundError (workPeriodId (payload_value p))).
Proof.
  intros Hnone. unfold updateWorkPeriod, mbind, M_bind, findById.
  by rewrite Hnone.
Qed.

Lemma updateWorkPeriod_found (p : Payload) (st : State) (c : Columns) :
  let wid := workPeriodId (payload_value p) in
  work_periods st !! wid = Some c →
  let workPeriod := loaded st wid c in
  let data := recomputed active policy workPeriod in
  updateWorkPeriod active policy config p st
  = if decide (sameAsStored workPeriod data) then Done tt st
    else Done tt (persisted config workPeriod data st).
Proof.
  intros wid Hc workPeriod data.
  unfold updateWorkPeriod, mbind, M_bind, findById. fold wid. rewrite Hc.
  fold (loaded st wid c). fold workPeriod.
  fold (recomputed active policy workPeriod). fold data.
  destruct (decide (sameAsStored workPeriod data)) as [(H1 & H2 & H3)|Hn].
  - by rewrite !bool_decide_eq_true_2.
  - assert (bool_decide (daysPaid (columns workPeriod) = data_daysPaid data)
            && bool_decide (paymentTotal (columns workPeriod) = data_paymentTotal data)
            && bool_decide (Some (paymentStatus (columns workPeriod))
                            = data_paymentStatus data) = false) as ->.
    { apply not_true_is_false. rewrite !andb_true_iff, !bool_decide_eq_true.
      intros [[? ?] ?]. by apply Hn. }
    done.
Qed.

(** C1.  A pass, for a create or an update event, that computes again the
    [daysPaid], [paymentTotal] and [paymentStatus] the period already holds
    ends unchanged: the state after it is the state before it, so nothing
    is written, no message is sent and no event is handed over. *)
Theorem pass_unchanged (p : Payload) (st : State) (c : Columns) :
  let wid := workPeriodId (payload_value p) in
  work_periods st !! wid = Some c →
  sameAsStored (loaded st wid c) (recomputed active policy (loaded st wid c)) →
  processCreate active policy config p st = Done tt st
  ∧ processUpdate active policy config p st = Done tt st.
Proof.
  intros wid Hc Hsame. unfold processCreate, processUpdate.
  rewrite (updateWorkPeriod_found p st c Hc). fold wid.
  by rewrite decide_True.
Qed.

(** C3.  A pass that computes a [daysPaid], [paymentTotal] or
    [paymentStatus] other than the stored one writes the three values into
    the columns of the period, which leaves every value that did not change
    and every other column and period as it was, and emits one event on the
    work period update topic: its payload is the period as it is now, its
    [oldValue] the period as it was loaded, its key the identifier of the
    owning resource booking, as [resourceBooking.id:<id>]. *)
Theorem pass_persisted (p : Payload) (st : State) (c : Columns) :
  let wid := workPeriodId (payload_value p) in
  let workPeriod := loaded st wid c in
  let data := recomputed active policy workPeriod in
  let updated := assign workPeriod data in
  work_periods st !! wid = Some c →
  ¬ sameAsStored workPeriod data →
  ∃ st',
    processCreate active policy config p st = Done tt st'
    ∧ processUpdate active policy config p st = Done tt st'
    ∧ work_periods st' !! wid = Some (columns updated)
    ∧ (∀ w, w ≠ wid → work_periods st' !! w = work_periods st !! w)
    ∧ work_period_payments st' = work_period_payments st
    ∧ resourceBookingId (columns updated) = resourceBookingId c
    ∧ attributes (columns updated) = attributes c
    ∧ daysPaid (columns updated) = data_daysPaid data
    ∧ paymentTotal (columns updated) = data_paymentTotal data
    ∧ Some (paymentStatus (columns updated)) = data_paymentStatus data
    ∧ bus st'
      = bus st ++ [ {| topic := TAAS_WORK_PERIOD_UPDATE_TOPIC config;
                       originator := KAFKA_MESSAGE_ORIGINATOR config;
                       mime_type := "application/json";
                       payload := omitPayments updated |} ]
    ∧ dispatched st'
      = dispatched st
        ++ [ (TAAS_WORK_PERIOD_UPDATE_TOPIC config,
              {| value := omitPayments updated;
                 options :=
                   {| oldValue := workPeriod;
                      key := "resourceBooking.id:" +:+ resourceBookingId c |} |}) ].
Proof.
  intros wid workPeriod data updated Hc Hdiff.
  exists (persisted config workPeriod data st).
  unfold processCreate, processUpdate.
  rewrite (updateWorkPeriod_found p st c Hc). fold wid workPeriod data.
  rewrite decide_False by done.
  split_and!; try done.
  - simpl. by rewrite lookup_insert_eq.
  - intros w Hw. simpl. by rewrite lookup_insert_ne.
Qed.


End ReconcilerClaims.

(** * The properties at sample inputs *)


(** From 2021-01-01 to 2021-01-08 without a duration the call returns one
    week. *)
Lemma calculateDuration_errors_witness :
  calculateDuration (host := sampleHost)
    {[ "startDate" := Str "2021-01-01"; "endDate" := Str "2021-01-08" ]}
  = Return (triple (Str "2021-01-01") (Str "2021-01-08") (Num 1)).
Proof.
  refine (proj2 (proj2 (proj2
            (proj1 calculateDuration_errors sampleHost
               {[ "startDate" := Str "2021-01-01"; "endDate" := Str "2021-01-08" ]}
               _ _))) 1 _ _ _).
  - vm_compute. reflexivity.
  - vm_compute. reflexivity.
  - vm_compute. reflexivity.
  - lia.
  - left. vm_compute. reflexivity.
Defined.


(** A patch that sets the duration to 0 and repeats the end date. *)
Lemma updateDuration_falsy_ignored_witness :
  updateDuration (host := sampleHost) (triple jan01 jan08 (Num 1))
    {[ "endDate" := jan08; "duration" := Num 0 ]}
  = Return ∅.
Proof.
  apply (proj1 (proj2 (updateDuration_falsy_ignored (host := sampleHost)))).
  intros f Hf Hne. duration_field Hf.
  - vm_compute. reflexivity.
  - destruct Hne. vm_compute. reflexivity.
  - vm_compute. reflexivity.
Defined.

(** A patch of the duration and a title. *)
Lemma updateDuration_counts_every_key_witness :
  updateDuration (host := sampleHost)
    {[ "startDate" := jan01; "duration" := Num 1 ]}
    {[ "duration" := Num 2; "title" := Str "x" ]}
  = calculateDuration (host := sampleHost)
      {[ "duration" := Num 2; "title" := Str "x" ]}.
Proof.
  refine (proj1 (proj1 (updateDuration_counts_every_key (host := sampleHost))
            {[ "startDate" := jan01; "duration" := Num 1 ]}
            {[ "duration" := Num 2; "title" := Str "x" ]}
            "duration" "title" _ _ _ _ _)).
  - unfold durationFields. do 2 right. left.
  - vm_compute. reflexivity.
  - vm_compute. discriminate.
  - unfold durationFields. intros Hin.
    apply elem_of_cons in Hin as [Hin|Hin]; [discriminate|].
    apply elem_of_cons in Hin as [Hin|Hin]; [discriminate|].
    apply elem_of_cons in Hin as [Hin|Hin]; [discriminate|].
    by apply elem_of_nil in Hin.
  - exists (Str "x"). vm_compute. reflexivity.
Defined.

(** A patch of both dates on a triple of one week. *)
Lemma updateDuration_steps_witness :
  updateDuration (host := sampleHost) (triple jan01 jan08 (Num 1))
    {[ "startDate" := jan01; "endDate" := jan15 ]}
  = calculateDuration (host := sampleHost)
      {[ "startDate" := jan01; "endDate" := jan15 ]}.
Proof.
  refine (proj1 (proj2 (proj2 (updateDuration_steps (host := sampleHost)
            (triple jan01 jan08 (Num 1))
            {[ "startDate" := jan01; "endDate" := jan15 ]})) _ _)).
  - vm_compute. discriminate.
  - vm_compute. lia.
Defined.


(** The period that holds 5, 500 and [Partial], computed again. *)
Lemma pass_unchanged_witness :
  processCreate ["Active"] samplePolicy sampleConfig samplePayload sampleState
  = Done tt sampleState
  ∧ processUpdate ["Active"] samplePolicy sampleConfig samplePayload sampleState
    = Done tt sampleState.
Proof.
  apply (pass_unchanged ["Active"] samplePolicy sampleConfig samplePayload
           sampleState sampleColumns).
  - vm_compute. reflexivity.
  - vm_compute. repeat split.
Defined.

(** The same period after a payment that brings the days paid to 10. *)
Lemma pass_persisted_witness :
  ∃ st',
    processCreate ["Active"] samplePolicy sampleConfig samplePayload sampleStatePaid
    = Done tt st'
    ∧ (daysPaid <$> work_periods st' !! "w1") = Some 10
    ∧ (paymentTotal <$> work_periods st' !! "w1") = Some 1000
    ∧ length (bus st') = 1%nat
    ∧ (oldValue ∘ options ∘ snd <$> dispatched st')
      = [ loaded sampleStatePaid "w1" sampleColumns ]
    ∧ (key ∘ options ∘ snd <$> dispatched st') = [ "resourceBooking.id:rb1" ].
Proof.
  destruct (pass_persisted ["Active"] samplePolicy sampleConfig samplePayload
              sampleStatePaid sampleColumns)
    as (st' & Hc & _ & Hw & _ & _ & _ & _ & Hd & Ht & _ & Hb & He).
  - vm_compute. reflexivity.
  - vm_compute. intros (Hd & _). discriminate Hd.
  - exists st'. split; [exact Hc|].
    simpl in Hw. rewrite Hw, Hb, He. vm_compute. repeat split.
Defined.

Lemma samplePolicy_settled : settled samplePolicy.
Proof. intros workPeriod. reflexivity. Defined.


(** * Further properties of the duration helpers *)

Section DurationMore.
Context `{host : Host}.

Lemma addWeeks_valid (ts n : Z) :
  Z.abs (ts + n * msPerWeek) ≤ maxTime →
  addWeeks (Some ts) (Some n) = Some (ts + n * msPerWeek).
Proof.
  intros Hr. unfold addWeeks, addDays. simpl.
  destruct (n * 7 =? 0) eqn:E0.
  - apply Z.eqb_eq in E0. f_equal. lia.
  - simpl. replace (ts + n * 7 * msPerDay) with (ts + n * msPerWeek)
      by (unfold msPerWeek, msPerDay; lia).
    by apply TimeClip_in_range.
Qed.

Lemma addWeeks_Some (t : option Z) (n ts te : Z) :
  t = Some ts → addWeeks t (Some n) = Some te → te = ts + n * msPerWeek.
Proof.
  intros -> Ha. unfold addWeeks, addDays in Ha. simpl in Ha.
  destruct (n * 7 =? 0) eqn:E0.
  - apply Z.eqb_eq in E0. injection Ha as <-. lia.
  - simpl in Ha. apply TimeClip_Some in Ha as [-> _].
    unfold msPerWeek, msPerDay. lia.
Qed.




End DurationMore.

Section UpdateMore.
Context `{host : Host}.

(** A patch of one key that holds a truthy value other than the original's
    takes the branch of one field. *)
Lemma updateDuration_one_key (original : object) (f : string) (x : val) :
  f ∈ durationFields →
  truthy x = true →
  x ≠ get original f →
  updateDuration original {[ f := x ]}
  = calculateDuration
      (triple (chosen original {[ f := x ]} f "startDate")
              (chosen original {[ f := x ]} f "endDate")
              (chosen original {[ f := x ]} f "duration")).
Proof.
  intros Hf Ht Hne.
  assert (get ({[ f := x ]} : object) f = x) as Hget
    by (unfold get; by rewrite lookup_singleton_eq).
  assert (modifiedFields original {[ f := x ]} ≠ []) as Hmod.
  { intros Hnil.
    assert (f ∈ modifiedFields original {[ f := x ]}) as Hin.
    { apply elem_of_modifiedFields. rewrite Hget. done. }
    rewrite Hnil in Hin. by apply elem_of_nil in Hin. }
  rewrite updateDuration_modified by done.
  rewrite map_size_singleton, bool_decide_eq_true_2 by done.
  destruct (modifiedFields_single original f x Hmod) as [_ ->].
  by rewrite recomputeInput_single.
Qed.

(** X4.  On a complete triple whose dates are [n >= 1] weeks apart, a patch
    of one field never computes a field again.  A patch of the duration
    alone always throws the conflict error; a patch of one date alone
    returns only when the new date keeps the gap of [n] weeks, and then with
    the duration it had. *)
Theorem updateDuration_lone_edit_of_complete_triple (s e : val) (n : Z) :
  truthy s = true →
  truthy e = true →
  actualDuration s e = QInteger n →
  1 ≤ n →
  (∀ d', truthy d' = true → d' ≠ Num n →
         updateDuration (triple s e (Num n)) {[ "duration" := d' ]}
         = Throw ConflictError)
  ∧ (∀ e' o, truthy e' = true → e' ≠ e →
             updateDuration (triple s e (Num n)) {[ "endDate" := e' ]} = Return o →
             actualDuration s e' = QInteger n ∧ o = triple s e' (Num n))
  ∧ (∀ s' o, truthy s' = true → s' ≠ s →
             updateDuration (triple s e (Num n)) {[ "startDate" := s' ]} = Return o →
             actualDuration s' e = QInteger n ∧ o = triple s' e (Num n)).
Proof.
  intros Hs He Ha Hn.
  assert (truthy (Num n) = true) as Hd
    by (simpl; apply negb_true_iff, Z.eqb_neq; lia).
  split_and!.
  - intros d' Ht Hne.
    rewrite updateDuration_one_key;
      [|unfold durationFields; set_solver|done|by autorewrite with triple].
    unfold chosen. repeat case_bool_decide; try done.
    unfold get at 3. rewrite lookup_singleton_eq. autorewrite with triple. simpl.
    rewrite calculateDuration_start_end; autorewrite with triple; try done.
    rewrite Ha. destruct (n <? 1) eqn:E1; [apply Z.ltb_lt in E1; lia|].
    rewrite Ht. rewrite bool_decide_eq_false_2 by congruence. done.
  - intros e' o Ht Hne.
    rewrite updateDuration_one_key;
      [|unfold durationFields; set_solver|done|by autorewrite with triple].
    unfold chosen. repeat case_bool_decide; try done.
    unfold get at 2. rewrite lookup_singleton_eq. autorewrite with triple. simpl.
    rewrite calculateDuration_start_end; autorewrite with triple; try done.
    destruct (actualDuration s e') as [| |k]; try done.
    destruct (k <? 1); try done. rewrite Hd. simpl.
    case_bool_decide as Hk; simpl; [|done].
    injection Hk as ->. by intros [= <-].
  - intros s' o Ht Hne.
    rewrite updateDuration_one_key;
      [|unfold durationFields; set_solver|done|by autorewrite with triple].
    unfold chosen. repeat case_bool_decide; try done.
    unfold get at 1. rewrite lookup_singleton_eq. autorewrite with triple. simpl.
    rewrite calculateDuration_start_end; autorewrite with triple; try done.
    destruct (actualDuration s' e) as [| |k]; try done.
    destruct (k <? 1); try done. rewrite Hd. simpl.
    case_bool_decide as Hk; simpl; [|done].
    injection Hk as ->. by intros [= <-].
Qed.

(** X5.  On an original that holds a start date and no end date, a patch of
    the duration alone computes the end date: the call returns the original
    start date, the patched duration and the end date that many weeks after
    the start. *)
Theorem updateDuration_lone_duration_recomputes_end (original : object) (d' : val) :
  truthy (get original "startDate") = true →
  truthy (get original "endDate") = false →
  truthy d' = true →
  d' ≠ get original "duration" →
  updateDuration original {[ "duration" := d' ]}
  = Return (triple (get original "startDate")
                   (DateObj (addWeeks (newDate (get original "startDate"))
                                      (toInteger d')))
                   d').
Proof.
  intros Hs He Ht Hne.
  rewrite updateDuration_one_key; [|unfold durationFields; set_solver|done|done].
  unfold chosen. repeat case_bool_decide; try done.
  unfold get at 3. rewrite lookup_singleton_eq. simpl.
  rewrite calculateDuration_start_duration; by autorewrite with triple.
Qed.

(** X6.  [updateDuration] never runs past its last branch: whatever the
    original and the patch are, it returns an object or throws, because a
    field can only count as modified when the patch holds it, and a patch
    that holds a field has one key or more than one. *)
Theorem updateDuration_never_falls_through (original data : object) :
  updateDuration original data ≠ ReturnUndefined
  ∧ (modifiedFields original data ≠ [] → (1 ≤ size data)%nat).
Proof.
  split; [apply updateDuration_defined|].
  intros Hm. destruct (modifiedFields original data) as [|f l] eqn:E; [done|].
  assert (f ∈ modifiedFields original data) as Hin by (rewrite E; left).
  apply elem_of_modifiedFields in Hin as (_ & Ht & _).
  apply truthy_lookup in Ht as [x Hx].
  assert (size data ≠ 0%nat); [|lia].
  intros Hz. apply map_size_empty_inv in Hz. by rewrite Hz, lookup_empty in Hx.
Qed.

End UpdateMore.

(** * Further properties of the reconciliation *)


(** X8.  Payments of non-negative days and amounts give non-negative
    totals. *)
Theorem aggregate_nonnegative (active : list string) (ps : list WorkPeriodPayment) :
  (∀ p, p ∈ ps → 0 ≤ days p ∧ 0 ≤ amount p) →
  0 ≤ data_daysPaid (aggregate active ps)
  ∧ 0 ≤ data_paymentTotal (aggregate active ps).
Proof.
  rewrite aggregate_sumOver. simpl. unfold sumOver.
  induction ps as [|p ps IH]; intros Hall; [done|].
  rewrite filter_cons.
  destruct IH as [IH1 IH2]; [intros q Hq; apply Hall; by right|].
  destruct (Hall p) as [Hd Ha]; [by left|].
  case_decide; simpl; split; try done; by apply Z.add_nonneg_nonneg.
Qed.

Section ReconcilerMore.
Variable active : list string.
Variable policy : WorkPeriod → string.
Variable config : Config.

Lemma updateWorkPeriod_done (p : Payload) (st st' : State) :
  updateWorkPeriod active policy config p st = Done tt st' →
  ∃ c, work_periods st !! workPeriodId (payload_value p) = Some c
       ∧ let workPeriod := loaded st (workPeriodId (payload_value p)) c in
         let data := recomputed active policy workPeriod in
         (sameAsStored workPeriod data ∧ st' = st)
         ∨ (¬ sameAsStored workPeriod data
            ∧ st' = persisted config workPeriod data st).
Proof.
  intros Hrun.
  destruct (work_periods st !! workPeriodId (payload_value p)) as [c|] eqn:Hc.
  2: { by rewrite updateWorkPeriod_missing in Hrun. }
  exists c. split; [done|].
  rewrite (updateWorkPeriod_found _ _ _ p st c Hc) in Hrun.
  case_decide; injection Hrun as <-; [left|right]; done.
Qed.


(** X10.  A pass writes to nothing but the period of its event and the two
    logs: the stored payments and every other period are as before, and the
    bus and the dispatcher keep what they held and receive the same number
    of entries, none or one. *)
Theorem pass_frame (p : Payload) (st st' : State) :
  updateWorkPeriod active policy config p st = Done tt st' →
  work_period_payments st' = work_period_payments st
  ∧ (∀ w, w ≠ workPeriodId (payload_value p) →
          work_periods st' !! w = work_periods st !! w)
  ∧ ∃ ms es, bus st' = bus st ++ ms
             ∧ dispatched st' = dispatched st ++ es
             ∧ length ms = length es
             ∧ (length ms ≤ 1)%nat.
Proof.
  intros Hrun. apply updateWorkPeriod_done in Hrun as (c & Hc & Hcases).
  simpl in Hcases. destruct Hcases as [[_ ->]|[_ ->]].
  - split_and!; try done. exists [], []. rewrite !app_nil_r.
    split_and!; simpl; try done; lia.
  - split_and!; try done.
    + intros w Hw. simpl. by rewrite lookup_insert_ne.
    + eexists [_], [_]. simpl. by split_and!.
Qed.

(** X11.  Each event sent to the bus is handed to the dispatcher with the
    same topic and payload: [postEvent], and so every pass, keeps the two
    logs aligned. *)
Theorem logs_stay_aligned :
  (∀ t w opts st, aligned st →
     ∃ st', postEvent config t w opts st = Done tt st' ∧ aligned st')
  ∧ (∀ p st st', aligned st →
       updateWorkPeriod active policy config p st = Done tt st' → aligned st').
Proof.
  assert (∀ t w opts st, aligned st →
            ∃ st', postEvent config t w opts st = Done tt st' ∧ aligned st')
    as Hpost.
  { intros t w opts st Hal. eexists. split; [reflexivity|].
    unfold aligned in *. simpl. rewrite !fmap_app, Hal. done. }
  split; [done|].
  intros p st st' Hal Hrun.
  apply updateWorkPeriod_done in Hrun as (c & Hc & Hcases).
  simpl in Hcases. destruct Hcases as [[_ ->]|[_ ->]]; [done|].
  unfold aligned in *. simpl. rewrite !fmap_app, Hal. done.
Qed.

End ReconcilerMore.

(** * [checkIfExists] *)

Lemma splitSpace_nonempty (s : string) : splitSpace s ≠ [].
Proof.
  destruct s as [|c s]; [done|]. simpl.
  destruct (Ascii.eqb c " "); [done|]. by destruct (splitSpace s).
Qed.

Lemma concat_cons (sep x : string) (l : list string) :
  l ≠ [] → String.concat sep (x :: l) = x +:+ sep +:+ String.concat sep l.
Proof. by destruct l. Qed.

(** Splitting at the spaces and joining with spaces gives the string back. *)
Lemma splitSpace_concat (s : string) : String.concat " " (splitSpace s) = s.
Proof.
  induction s as [|c s IH]; [done|]. simpl.
  destruct (Ascii.eqb c " ") eqn:Ec.
  - apply Ascii.eqb_eq in Ec as ->.
    rewrite concat_cons by apply splitSpace_nonempty. by rewrite IH.
  - destruct (splitSpace s) as [|w ws] eqn:E; [by destruct (splitSpace_nonempty s)|].
    destruct ws as [|y l].
    + simpl in *. by rewrite IH.
    + rewrite concat_cons by done. rewrite concat_cons in IH by done.
      by rewrite <- IH.
Qed.

Section CheckIfExistsFacts.
Variable toLowerCase : string → string.

Lemma lowerAll_strings (ss : list string) :
  lowerAll toLowerCase (JStr <$> ss) = Ok (toLowerCase <$> ss).
Proof.
  unfold lowerAll. induction ss as [|s ss IH]; [done|].
  rewrite !fmap_cons. cbn [mapM]. by rewrite IH.
Qed.

Lemma lowerAll_not_string (items : list json) (v : json) :
  v ∈ items → (∀ s, v ≠ JStr s) → lowerAll toLowerCase items = Raise TypeError.
Proof.
  unfold lowerAll. intros Hin Hv.
  induction items as [|x items IH]; [by apply elem_of_nil in Hin|].
  cbn [mapM].
  apply elem_of_cons in Hin as [<-|Hin].
  - destruct v; try done. by destruct (Hv s).
  - destruct x; try done. by rewrite IH.
Qed.

Lemma lowerAll_cases (items : list json) :
  (∃ ls, lowerAll toLowerCase items = Ok ls)
  ∨ lowerAll toLowerCase items = Raise TypeError.
Proof.
  unfold lowerAll. induction items as [|x items IH]; [left; by eexists|].
  cbn [mapM].
  destruct x; try (by right).
  destruct IH as [[ls ->]| ->]; [left; by eexists|by right].
Qed.

Lemma existsb_elem_of (source terms : list string) :
  existsb (λ t, bool_decide (t ∈ source)) terms = true
  ↔ ∃ t, t ∈ terms ∧ t ∈ source.
Proof.
  rewrite existsb_exists. split.
  - intros (t & Hin & Hb). exists t. split; [by apply list_elem_of_In|].
    by apply bool_decide_eq_true in Hb.
  - intros (t & Hin & Hs). exists t. split; [by apply list_elem_of_In|].
    by apply bool_decide_eq_true.
Qed.

(** X12.  What [checkIfExists] throws, in the order of its checks: a source
    that is no array gives the error of the source whatever the term is; a
    source that holds something other than strings gives the [TypeError] of
    the runtime, also when the term is of a wrong kind; with a source of
    strings, a term that is neither a string nor an array gives the error of
    the term. *)
Theorem checkIfExists_errors :
  (∀ source term, (∀ items, source ≠ JArr items) →
     checkIfExists toLowerCase source term
     = Raise (JsError "Source argument should be an array"))
  ∧ (∀ items v term, v ∈ items → (∀ s, v ≠ JStr s) →
       checkIfExists toLowerCase (JArr items) term = Raise TypeError)
  ∧ (∀ ss term, (∀ t, term ≠ JStr t) → (∀ ts, term ≠ JArr ts) →
       checkIfExists toLowerCase (JArr (JStr <$> ss)) term
       = Raise (JsError "Term argument should be either a string or an array")).
Proof.
  split_and!.
  - intros source term Hs. destruct source; try done. by destruct (Hs items).
  - intros items v term Hin Hv. unfold checkIfExists.
    by rewrite (lowerAll_not_string items v Hin Hv).
  - intros ss term Ht Ha. unfold checkIfExists. rewrite lowerAll_strings.
    destruct term; try done; [by destruct (Ht s)|by destruct (Ha items)].
Qed.

(** X13.  For a source and a term that are arrays of strings,
    [checkIfExists] answers whether some string of the source and some
    string of the term have the same lower-case form; so the answer is the
    same with source and term exchanged. *)
Theorem checkIfExists_arrays (ss ts : list string) :
  ∃ b, checkIfExists toLowerCase (JArr (JStr <$> ss)) (JArr (JStr <$> ts)) = Ok b
       ∧ (b = true ↔ ∃ s t, s ∈ ss ∧ t ∈ ts ∧ toLowerCase s = toLowerCase t)
       ∧ checkIfExists toLowerCase (JArr (JStr <$> ts)) (JArr (JStr <$> ss)) = Ok b.
Proof.
  unfold checkIfExists. rewrite !lowerAll_strings. simpl.
  eexists. split; [done|].
  assert (∀ xs ys : list string,
            existsb (λ t, bool_decide (t ∈ toLowerCase <$> xs)) (toLowerCase <$> ys)
            = true
            ↔ ∃ s t, s ∈ xs ∧ t ∈ ys ∧ toLowerCase s = toLowerCase t) as Hchar.
  { intros xs ys. rewrite existsb_elem_of. split.
    - intros (w & Hy & Hx).
      apply list_elem_of_fmap in Hy as (t & -> & Ht).
      apply list_elem_of_fmap in Hx as (s & Heq & Hs). by exists s, t.
    - intros (s & t & Hs & Ht & Heq). exists (toLowerCase t). split.
      + by apply list_elem_of_fmap_2.
      + rewrite <- Heq. by apply list_elem_of_fmap_2. }
  split; [apply Hchar|].
  f_equal. apply eq_true_iff_eq. rewrite !Hchar. split.
  - intros (s & t & Hs & Ht & Heq). by exists t, s.
  - intros (s & t & Hs & Ht & Heq). by exists t, s.
Qed.

(** X14.  For a term that is a string, [checkIfExists] answers whether one
    of the words of its lower-case form, cut at each single space, is the
    lower-case form of a string of the source.  An empty source gives
    [false]. *)
Theorem checkIfExists_words (ss : list string) (t : string) :
  ∃ b, checkIfExists toLowerCase (JArr (JStr <$> ss)) (JStr t) = Ok b
       ∧ (b = true ↔ ∃ w s, w ∈ splitSpace (toLowerCase t) ∧ s ∈ ss
                            ∧ toLowerCase s = w)
       ∧ (ss = [] → b = false).
Proof.
  unfold checkIfExists. rewrite lowerAll_strings. simpl.
  eexists. split_and!; [done| |].
  - rewrite existsb_elem_of. split.
    + intros (w & Hw & Hs). apply list_elem_of_fmap in Hs as (s & -> & Hs).
      by exists (toLowerCase s), s.
    + intros (w & s & Hw & Hs & <-). exists (toLowerCase s).
      split; [done|]. by apply list_elem_of_fmap_2.
  - intros ->. apply not_true_is_false. rewrite existsb_elem_of.
    intros (w & _ & Hin). by apply elem_of_nil in Hin.
Qed.

(** X15.  The answer depends on the source only through the lower-case forms
    of its strings, and a longer source never turns [true] into [false]. *)
Theorem checkIfExists_source (ss ss' : list string) (term : json) :
  (toLowerCase <$> ss = toLowerCase <$> ss' →
   checkIfExists toLowerCase (JArr (JStr <$> ss)) term
   = checkIfExists toLowerCase (JArr (JStr <$> ss')) term)
  ∧ (checkIfExists toLowerCase (JArr (JStr <$> ss)) term = Ok true →
     checkIfExists toLowerCase (JArr (JStr <$> (ss ++ ss'))) term = Ok true).
Proof.
  unfold checkIfExists. rewrite !lowerAll_strings. simpl. split.
  - by intros ->.
  - assert (∀ terms,
              existsb (λ t, bool_decide (t ∈ toLowerCase <$> ss)) terms = true →
              existsb (λ t, bool_decide (t ∈ toLowerCase <$> (ss ++ ss'))) terms
              = true) as Hmono.
    { intros terms. rewrite !existsb_elem_of. intros (w & Hw & Hs).
      exists w. split; [done|]. rewrite fmap_app. apply elem_of_app. by left. }
    destruct term; try done.
    + intros [= Hb]. unfold mbind, result_bind. by rewrite (Hmono _ Hb).
    + destruct (lowerAll_cases items) as [[ls ->]| ->]; [|done].
      unfold mbind, result_bind. intros [= Hb]. by rewrite (Hmono _ Hb).
Qed.

End CheckIfExistsFacts.

(** * [clearObject] *)

Lemma isNull_false (v : json) : isNull v = false ↔ v ≠ JNull.
Proof. by destruct v. Qed.

Lemma isEmptyArray_false (v : json) : isEmptyArray v = false ↔ v ≠ JArr [].
Proof. destruct v as [| | | | |[|x l]|]; simpl; split; done. Qed.

Lemma elem_of_omitBy (predicate : json → bool) (fields : list (string * json))
    (k : string) (v : json) :
  (k, v) ∈ omitBy predicate fields ↔ (k, v) ∈ fields ∧ predicate v = false.
Proof. unfold omitBy. rewrite list_elem_of_filter. simpl. tauto. Qed.

Lemma omitBy_omitBy (predicate : json → bool) (fields : list (string * json)) :
  omitBy predicate (omitBy predicate fields) = omitBy predicate fields.
Proof.
  unfold omitBy. rewrite list_filter_filter. apply list_filter_iff. tauto.
Qed.

(** X16.  Of an object, [clearObject] keeps, in their order and with their
    values, exactly the fields that hold neither [null] nor an empty array;
    what lies deeper in a value is not looked at. *)
Theorem clearObject_object (fields : list (string * json)) :
  ∃ fields',
    clearObject (DObject fields) = DObject fields'
    ∧ fields' `sublist_of` fields
    ∧ ∀ k v, (k, v) ∈ fields' ↔ (k, v) ∈ fields ∧ v ≠ JNull ∧ v ≠ JArr [].
Proof.
  eexists. split_and!; [done|apply sublist_filter|].
  intros k v. rewrite elem_of_omitBy, orb_false_iff.
  by rewrite isNull_false, isEmptyArray_false.
Qed.

(** X17.  Of an array, [clearObject] keeps every element in its place and
    drops from each only the fields that hold [null]: a field that holds an
    empty array, which is dropped from a single object, stays in the
    elements of an array. *)
Theorem clearObject_array (elements : list (list (string * json))) :
  ∃ elements',
    clearObject (DArray elements) = DArray elements'
    ∧ length elements' = length elements
    ∧ ∀ i e, elements !! i = Some e →
        ∃ e', elements' !! i = Some e'
              ∧ e' `sublist_of` e
              ∧ (∀ k v, (k, v) ∈ e' ↔ (k, v) ∈ e ∧ v ≠ JNull)
              ∧ (∀ k, (k, JArr []) ∈ e → (k, JArr []) ∈ e').
Proof.
  eexists. split_and!; [done|by rewrite length_fmap|].
  intros i e He. exists (omitBy isNull e).
  split_and!.
  - by rewrite list_lookup_fmap, He.
  - apply sublist_filter.
  - intros k v. by rewrite elem_of_omitBy, isNull_false.
  - intros k Hk. by apply elem_of_omitBy.
Qed.

(** X18.  Clearing what was cleared changes nothing more, for an object, an
    array and [undefined].  [null] is the exception: it is cleared to
    [undefined], and [undefined] to the empty object. *)
Theorem clearObject_twice :
  (∀ obj, obj ≠ DNull → clearObject (clearObject obj) = clearObject obj)
  ∧ clearObject DNull = DUndefined
  ∧ clearObject (clearObject DNull) = DObject [].
Proof.
  split_and!; [|done|done].
  intros [| |elements|fields] Hobj; try done; simpl.
  - f_equal. rewrite <- list_fmap_compose. apply list_fmap_ext.
    intros i e _. apply omitBy_omitBy.
  - f_equal. apply omitBy_omitBy.
Qed.

(** * [setResHeaders] *)

Lemma append_assoc (a b c : string) : (a +:+ b) +:+ c = a +:+ b +:+ c.
Proof.
  induction a as [|x a IH]; [done|].
  change (String x ((a +:+ b) +:+ c) = String x (a +:+ b +:+ c)). by f_equal.
Qed.

Lemma append_nil_r (a : string) : a +:+ "" = a.
Proof.
  induction a as [|x a IH]; [done|].
  change (String x (a +:+ "") = String x a). by f_equal.
Qed.

(** [Math.ceil(a / b)] for a positive [b]: the least number of pages of [b]
    items that hold [a] items. *)
Lemma ceilDiv_pages (a b : Z) :
  1 ≤ b →
  ∃ n, ceilDiv a b = Finite n ∧ (n - 1) * b < a ≤ n * b.
Proof.
  intros Hb. unfold ceilDiv.
  destruct (b =? 0) eqn:E0; [apply Z.eqb_eq in E0; lia|].
  eexists. split; [done|].
  pose proof (Z.div_mod (- a) b ltac:(lia)) as Hdm.
  pose proof (Z.mod_pos_bound (- a) b ltac:(lia)) as Hm.
  nia.
Qed.

Section PaginationFacts.
Variable stringify : list (string * json) → string.

(** X19.  [setResHeaders] leaves the response as it is for a result from the
    database, and otherwise writes to none but its seven headers. *)
Theorem setResHeaders_frame (req : Request) (res : gmap string headerValue)
    (result : SearchResult) :
  (fromDb result = true → setResHeaders stringify req res result = res)
  ∧ ∀ h, h ∉ pageHeaders →
         setResHeaders stringify req res result !! h = res !! h.
Proof.
  split.
  - intros Hdb. unfold setResHeaders. by rewrite Hdb.
  - intros h Hh. unfold pageHeaders in Hh.
    repeat (apply not_elem_of_cons in Hh as [? Hh]).
    unfold setResHeaders.
    repeat (case_match; try done); by rewrite ?lookup_insert_ne by done.
Qed.

(** X20.  For a page size of at least one, [X-Total-Pages] is the least
    number of pages that hold [total] items: [total] fits into that many
    pages and does not fit into one page less. *)
Theorem setResHeaders_total_pages (req : Request) (res : gmap string headerValue)
    (result : SearchResult) :
  fromDb result = false →
  1 ≤ perPage result →
  ∃ n, setResHeaders stringify req res result !! "X-Total-Pages"
       = Some (HNum (Finite n))
       ∧ (n - 1) * perPage result < total result ≤ n * perPage result.
Proof.
  intros Hdb Hpp.
  destruct (ceilDiv_pages (total result) (perPage result) Hpp) as (n & Hn & Hb).
  exists n. split; [|done].
  unfold setResHeaders. rewrite Hdb, Hn.
  case_match; by simplify_map_eq.
Qed.

(** X21.  For a page size of at least one, the response carries the page,
    the page size and the total; [X-Prev-Page] is written, as the page
    before, exactly when the page is beyond the first, and [X-Next-Page], as
    the page after, exactly when items lie beyond the page, that is when
    [page * perPage < total].  A header that is not written keeps the value
    the response had. *)
Theorem setResHeaders_navigation (req : Request) (res : gmap string headerValue)
    (result : SearchResult) :
  fromDb result = false →
  1 ≤ perPage result →
  let res' := setResHeaders stringify req res result in
  res' !! "X-Page" = Some (HNum (Finite (page result)))
  ∧ res' !! "X-Per-Page" = Some (HNum (Finite (perPage result)))
  ∧ res' !! "X-Total" = Some (HNum (Finite (total result)))
  ∧ res' !! "X-Prev-Page"
    = (if 1 <? page result then Some (HNum (Finite (page result - 1)))
       else res !! "X-Prev-Page")
  ∧ res' !! "X-Next-Page"
    = (if page result * perPage result <? total result
       then Some (HNum (Finite (page result + 1)))
       else res !! "X-Next-Page").
Proof.
  intros Hdb Hpp res'. subst res'.
  destruct (ceilDiv_pages (total result) (perPage result) Hpp) as (n & Hn & Hb).
  assert ((page result <? n) = (page result * perPage result <? total result))
    as Hnext.
  { destruct (page result <? n) eqn:E1;
      destruct (page result * perPage result <? total result) eqn:E2; try done;
      rewrite ?Z.ltb_lt, ?Z.ltb_ge in *; nia. }
  unfold setResHeaders. rewrite Hdb, Hn. simpl. rewrite Hnext.
  repeat case_match; by simplify_map_eq.
Qed.

(** X22.  For a page size of at least one, the [Link] header is written
    exactly when there are items, and then it lists, separated by a comma
    and a space, the links of the first and of the last page, then that of
    the page before when the page is beyond the first, then that of the page
    after when items lie beyond the page.  Without items the header keeps
    the value the response had. *)
Theorem setResHeaders_link (req : Request) (res : gmap string headerValue)
    (result : SearchResult) :
  fromDb result = false →
  1 ≤ perPage result →
  ∃ n, (n - 1) * perPage result < total result ≤ n * perPage result
       ∧ setResHeaders stringify req res result !! "Link"
         = if 0 <? total result
           then Some (HStr (String.concat ", "
                       ((λ pr, linkValue stringify req pr.1 pr.2)
                        <$> linkRelations result n)))
           else res !! "Link".
Proof.
  intros Hdb Hpp.
  destruct (ceilDiv_pages (total result) (perPage result) Hpp) as (n & Hn & Hb).
  exists n. split; [done|].
  assert ((0 <? n) = (0 <? total result)) as Hpos.
  { destruct (0 <? n) eqn:E1; destruct (0 <? total result) eqn:E2; try done;
      rewrite ?Z.ltb_lt, ?Z.ltb_ge in *; nia. }
  unfold setResHeaders. rewrite Hdb, Hn. simpl. rewrite Hpos.
  destruct (0 <? total result).
  - rewrite lookup_insert_eq. do 2 f_equal.
    unfold linkRelations, linkValue.
    destruct (1 <? page result), (page result <? n); simpl;
      by rewrite ?append_assoc.
  - repeat case_match; by simplify_map_eq.
Qed.

End PaginationFacts.

(** * [encodeQueryString] *)

(** Induction on a value, with the hypothesis for each item of an array and
    for the value of each field of an object. *)
Lemma json_nested_ind (P : json → Prop) :
  P JUndefined → P JNull → (∀ b, P (JBool b)) → (∀ n, P (JNum n)) →
  (∀ s, P (JStr s)) →
  (∀ items, Forall P items → P (JArr items)) →
  (∀ fields, Forall (λ kv, P kv.2) fields → P (JObj fields)) →
  ∀ v, P v.
Proof.
  intros Hu Hn Hb Hnum Hs Ha Ho.
  fix IH 1. intros [| | b | n | s | items | fields].
  - exact Hu.
  - exact Hn.
  - apply Hb.
  - apply Hnum.
  - apply Hs.
  - apply Ha. induction items as [|x items IHl]; constructor;
      [apply IH|exact IHl].
  - apply Ho. induction fields as [|[k x] fields IHl]; constructor;
      [apply IH|exact IHl].
Qed.

Section QueryStringFacts.
Variable escape : string → string.
Variable numberToString : number → string.

Abbreviation encode := (encodeQueryString escape numberToString).
Abbreviation entry := (encodeEntry escape numberToString).
Abbreviation fieldsLoop := (encodeFields escape numberToString).
Abbreviation itemsLoop := (encodeItems escape numberToString).

Lemma encodeQueryString_object (fields : list (string * json)) (nesting : string) :
  encode (JObj fields) nesting
  = pairs ← fieldsLoop nesting fields; Ok (String.concat "&" pairs).
Proof.
  cbn [encodeQueryString].
  match goal with
  | |- mbind _ (?loop fields) = _ =>
      assert (∀ l, loop l = fieldsLoop nesting l) as ->; [|done]
  end.
  induction l as [|[k x] l IH]; [done|].
  cbn [encodeFields]. unfold encodeEntry. by rewrite <- IH.
Qed.

Lemma encodeQueryString_array (items : list json) (nesting : string) :
  encode (JArr items) nesting
  = pairs ← itemsLoop nesting 0%nat items; Ok (String.concat "&" pairs).
Proof.
  cbn [encodeQueryString].
  match goal with
  | |- mbind _ (?loop 0%nat items) = _ =>
      assert (∀ l i, loop i l = itemsLoop nesting i l) as ->; [|done]
  end.
  induction l as [|x l IH]; intros i; [done|].
  cbn [encodeItems]. unfold encodeEntry. by rewrite <- IH.
Qed.

Lemma encodeEntry_outcome (nesting key : string) (v : json) :
  (∀ n, outcomeBy v (encode v n)) →
  (∃ s, entry nesting key v = Ok s ∧ hasNull v = false)
  ∨ (entry nesting key v = Raise TypeError ∧ hasNull v = true).
Proof.
  intros Hv. unfold encodeEntry.
  destruct (isObjectType v) eqn:Ho.
  - destruct (Hv (nesting +:+ key +:+ ".")) as [(s & -> & _ & Hn)|[-> [->|Hn]]];
      [left; by eexists|done|by right].
  - left. eexists. split; [done|]. by destruct v.
Qed.

Lemma encodeQueryString_outcome (v : json) (nesting : string) :
  outcomeBy v (encode v nesting).
Proof.
  revert nesting. induction v as [| | b | n | s | items IH | fields IH]
    using json_nested_ind; intros nesting.
  - right. split; [done|by left].
  - right. split; [done|by right].
  - left. by eexists.
  - left. by eexists.
  - left. by eexists.
  - rewrite encodeQueryString_array.
    assert (∀ i, (∃ ps, itemsLoop nesting i items = Ok ps
                        ∧ existsb hasNull items = false)
                 ∨ (itemsLoop nesting i items = Raise TypeError
                    ∧ existsb hasNull items = true)) as Hloop.
    { induction IH as [|x items Hx _ IHl]; intros i; [left; by eexists|].
      cbn [encodeItems existsb].
      destruct (encodeEntry_outcome nesting
                  (numberToString (Finite (Z.of_nat i))) x Hx)
        as [(s & -> & ->)|[-> ->]]; [|by right].
      destruct (IHl (S i)) as [(ps & -> & ->)|[-> ->]];
        [left; by eexists|by right]. }
    destruct (Hloop 0%nat) as [(ps & -> & Hn)|[-> Hn]].
    + left. eexists. by split_and!.
    + right. split; [done|by right].
  - rewrite encodeQueryString_object.
    assert ((∃ ps, fieldsLoop nesting fields = Ok ps
                   ∧ existsb (λ kv, hasNull kv.2) fields = false)
            ∨ (fieldsLoop nesting fields = Raise TypeError
               ∧ existsb (λ kv, hasNull kv.2) fields = true)) as Hloop.
    { induction IH as [|[k x] fields Hx _ IHl]; [left; by eexists|].
      cbn [encodeFields existsb]. simpl in Hx.
      destruct (encodeEntry_outcome nesting k x Hx) as [(s & -> & Hn)|[-> Hn]];
        simpl; rewrite Hn; [|by right].
      destruct IHl as [(ps & -> & ->)|[-> ->]]; [left; by eexists|by right]. }
    destruct Hloop as [(ps & -> & Hn)|[-> Hn]].
    + left. eexists. by split_and!.
    + right. split; [done|by right].
Qed.

(** X23.  [encodeQueryString] throws exactly when a [null] lies somewhere in
    the value, or when the value itself is [undefined]; what it throws is
    the [TypeError] of [Object.entries].  An [undefined] below the top is
    written out as a leaf. *)
Theorem encodeQueryString_throws (v : json) (nesting : string) :
  (encode v nesting = Raise TypeError ↔ v = JUndefined ∨ hasNull v = true)
  ∧ (∀ e, encode v nesting = Raise e → e = TypeError)
  ∧ ((v ≠ JUndefined ∧ hasNull v = false) → ∃ s, encode v nesting = Ok s).
Proof.
  destruct (encodeQueryString_outcome v nesting)
    as [(s & Hs & Hv & Hn)|[Hr Hv]]; rewrite ?Hs, ?Hr.
  - split_and!; [|done|by eexists].
    split; [done|]. intros [->|Hn']; [done|congruence].
  - split_and!; [done|by intros e [= <-]|].
    intros [Hu Hn]. destruct Hv; [done|congruence].
Qed.

Abbreviation leaves := (leavesOf numberToString).
Abbreviation fieldLeaves := (leavesFields numberToString).
Abbreviation itemLeaves := (leavesItems numberToString).
Abbreviation pairOf := (leafPair escape numberToString).

Lemma leavesOf_object (fields : list (string * json)) (nesting : string) :
  leaves (JObj fields) nesting = fieldLeaves nesting fields.
Proof.
  cbn [leavesOf].
  induction fields as [|[k x] l IH]; [done|].
  cbn [leavesFields]. unfold leavesEntry. by rewrite <- IH.
Qed.

Lemma leavesOf_array (items : list json) (nesting : string) :
  leaves (JArr items) nesting = itemLeaves nesting 0%nat items.
Proof.
  cbn [leavesOf]. generalize 0%nat.
  induction items as [|x l IH]; intros i; [done|].
  cbn [leavesItems]. unfold leavesEntry. by rewrite <- IH.
Qed.

Lemma concat_app (sep : string) (l1 l2 : list string) :
  l1 ≠ [] → l2 ≠ [] →
  String.concat sep (l1 ++ l2)
  = String.concat sep l1 +:+ sep +:+ String.concat sep l2.
Proof.
  intros H1 H2. induction l1 as [|x l1 IH]; [done|].
  destruct l1 as [|y l1].
  - simpl. by destruct l2.
  - rewrite <- app_comm_cons, concat_cons by done.
    rewrite IH by done. rewrite (concat_cons sep x (y :: l1)) by done.
    by rewrite !append_assoc.
Qed.

Lemma encodeFields_length (nesting : string) (l : list (string * json))
    (ps : list string) :
  fieldsLoop nesting l = Ok ps → length ps = length l.
Proof.
  revert ps. induction l as [|[k x] l IH]; intros ps; [by intros [= <-]|].
  cbn [encodeFields]. destruct (entry nesting k x) as [s|e]; [|done]. simpl.
  destruct (fieldsLoop nesting l) as [ps'|e]; [|done]. simpl.
  intros [= <-]. simpl. by rewrite (IH ps').
Qed.

(** X24.  An empty object gives the empty string, and an empty object or
    array inside an object gives an empty part: in front of further fields
    it leaves a lone [&] at the start of the string. *)
Theorem encodeQueryString_empty (nesting k : string) (rest : list (string * json))
    (r : string) :
  encode (JObj []) nesting = Ok ""
  ∧ (rest ≠ [] → encode (JObj rest) nesting = Ok r →
     encode (JObj ((k, JObj []) :: rest)) nesting = Ok ("&" +:+ r)
     ∧ encode (JObj ((k, JArr []) :: rest)) nesting = Ok ("&" +:+ r)).
Proof.
  split; [done|]. intros Hrest. rewrite !encodeQueryString_object.
  cbn [encodeFields]. unfold encodeEntry. simpl.
  destruct (fieldsLoop nesting rest) as [ps|e] eqn:Hps; [|done]. simpl.
  intros [= <-].
  assert (ps ≠ []) as Hne.
  { apply encodeFields_length in Hps. destruct ps, rest; done. }
  by destruct ps.
Qed.

Abbreviation leavesProperty := (leavesAreWritten escape numberToString).

Lemma encodeEntry_leaves (nesting key : string) (x : json) :
  leavesProperty x → hasNull x = false → filled x = true →
  leavesEntry numberToString nesting key x ≠ []
  ∧ entry nesting key x
    = Ok (String.concat "&" (pairOf <$> leavesEntry numberToString nesting key x)).
Proof.
  intros Hx Hn Hf. unfold leavesEntry, encodeEntry.
  destruct (isObjectType x) eqn:Ho; [by apply Hx|].
  split; [done|]. simpl. unfold leafPair, encodeLeaf. done.
Qed.

Lemma concat_leaves (s : string) (ps : list string) (l1 l2 : list (string * json)) :
  l1 ≠ [] →
  s = String.concat "&" (pairOf <$> l1) →
  (ps = [] ∧ l2 = [] ∨ ps ≠ [] ∧ l2 ≠ []) →
  String.concat "&" ps = String.concat "&" (pairOf <$> l2) →
  String.concat "&" (s :: ps) = String.concat "&" (pairOf <$> (l1 ++ l2)).
Proof.
  intros H1 -> [[-> ->]|[Hps H2]] Heq.
  - by rewrite app_nil_r.
  - rewrite concat_cons by done. rewrite fmap_app, concat_app, Heq; [done|..].
    + by destruct l1.
    + by destruct l2.
Qed.

Lemma encodeQueryString_leaves_all (v : json) : leavesProperty v.
Proof.
  induction v as [| | b | n | s | items IH | fields IH] using json_nested_ind;
    intros nesting Ho Hn Hf; try done.
  - rewrite encodeQueryString_array, leavesOf_array.
    simpl in Hn, Hf. apply andb_true_iff in Hf as [Hne Hf].
    apply negb_true_iff, bool_decide_eq_false in Hne.
    assert (∀ i, ∃ ps, itemsLoop nesting i items = Ok ps
                       ∧ (ps = [] ∧ itemLeaves nesting i items = []
                          ∨ ps ≠ [] ∧ itemLeaves nesting i items ≠ [])
                       ∧ (items ≠ [] → ps ≠ [])
                       ∧ String.concat "&" ps
                         = String.concat "&" (pairOf <$> itemLeaves nesting i items))
      as Hloop.
    { clear Hne Ho. induction IH as [|x items Hx _ IHl]; intros i.
      - exists []. split_and!; try done. by left.
      - cbn [existsb forallb] in Hn, Hf.
        apply orb_false_iff in Hn as [Hnx Hn].
        apply andb_true_iff in Hf as [Hfx Hf].
        destruct (encodeEntry_leaves nesting
                    (numberToString (Finite (Z.of_nat i))) x Hx Hnx Hfx)
          as [Hl He].
        destruct (IHl Hn Hf (S i)) as (ps & Hps & Hcase & _ & Hcat).
        cbn [encodeItems leavesItems]. rewrite He, Hps. simpl.
        eexists. split_and!; [done| |done|].
        + right. split; [done|]. intros Happ.
          apply app_eq_nil in Happ as [? _]. done.
        + by apply concat_leaves. }
    destruct (Hloop 0%nat) as (ps & -> & Hcase & Hps & Hcat). simpl.
    split; [|by rewrite Hcat].
    destruct Hcase as [[-> _]|[_ ?]]; [by destruct (Hps Hne)|done].
  - rewrite encodeQueryString_object, leavesOf_object.
    simpl in Hn, Hf. apply andb_true_iff in Hf as [Hne Hf].
    apply negb_true_iff, bool_decide_eq_false in Hne.
    assert (∃ ps, fieldsLoop nesting fields = Ok ps
                  ∧ (ps = [] ∧ fieldLeaves nesting fields = []
                     ∨ ps ≠ [] ∧ fieldLeaves nesting fields ≠ [])
                  ∧ (fields ≠ [] → ps ≠ [])
                  ∧ String.concat "&" ps
                    = String.concat "&" (pairOf <$> fieldLeaves nesting fields))
      as Hloop.
    { clear Hne Ho. induction IH as [|[k x] fields Hx _ IHl].
      - exists []. split_and!; try done. by left.
      - cbn [existsb forallb] in Hn, Hf. simpl in Hx, Hn, Hf.
        apply orb_false_iff in Hn as [Hnx Hn].
        apply andb_true_iff in Hf as [Hfx Hf].
        destruct (encodeEntry_leaves nesting k x Hx Hnx Hfx) as [Hl He].
        destruct (IHl Hn Hf) as (ps & Hps & Hcase & _ & Hcat).
        cbn [encodeFields leavesFields]. rewrite He, Hps. simpl.
        eexists. split_and!; [done| |done|].
        + right. split; [done|]. intros Happ.
          apply app_eq_nil in Happ as [? _]. done.
        + by apply concat_leaves. }
    destruct Hloop as (ps & -> & Hcase & Hps & Hcat). simpl.
    split; [|by rewrite Hcat].
    destruct Hcase as [[-> _]|[_ ?]]; [by destruct (Hps Hne)|done].
Qed.

(** X25.  For an object or an array that holds no [null] and in which no
    object and no array is empty, the query string is the list of its
    leaves, in their order, joined by [&]: each leaf is written as its
    escaped path, the keys and indices that lead to it joined by dots, then
    [=], then its escaped value. *)
Theorem encodeQueryString_leaves (v : json) (nesting : string) :
  isObjectType v = true → hasNull v = false → filled v = true →
  encode v nesting = Ok (String.concat "&" (pairOf <$> leaves v nesting)).
Proof. intros Ho Hn Hf. by apply encodeQueryString_leaves_all. Qed.

End QueryStringFacts.

(** * The user helpers *)

Section RemoteFacts.
Variable World : Type.
Variable send : HttpRequest → World → answer json * World.
Variable machineToken : World → answer string * World.
Variable machineTokenForUbahn : World → answer string * World.
Variable config : ApiConfig.
Variable escape : string → string.
Variable numberToString : number → string.

Abbreviation R := (Remote World).
Abbreviation lookupUser :=
  (getUserId World send machineTokenForUbahn config escape numberToString).
Abbreviation create :=
  (createFromTopcoder World send machineToken machineTokenForUbahn config
     numberToString).
Abbreviation ensure :=
  (ensureUbahnUserId World send machineToken machineTokenForUbahn config escape
     numberToString).
Abbreviation lookupRequest := (userIdsRequest config).
Abbreviation readRequest := (topcoderUserRequest config numberToString).
Abbreviation createRequest := (createUserRequest config).
Abbreviation profileRequest := (externalProfileRequest config numberToString).
Abbreviation lookupQuery userId :=
  (encodeQueryString escape numberToString (userIdsQuery config userId) "").

Lemma extends_bind {A B : Type} (m : R A) (f : A → R B) :
  extends World m → (∀ a, extends World (f a)) → extends World (m ≫= f).
Proof.
  intros Hm Hf st r st' Hrun. unfold mbind, Remote_bind in Hrun.
  destruct (m st) as [[a|e] st1] eqn:Em.
  - destruct (Hm _ _ _ Em) as [s1 H1]. destruct (Hf a _ _ _ Hrun) as [s2 H2].
    exists (s1 ++ s2). by rewrite H2, H1, app_assoc.
  - injection Hrun as <- <-. by apply (Hm _ _ _ Em).
Qed.

Lemma extends_ret {A : Type} (a : A) : extends World (mret a : R A).
Proof. intros st r st' [= <- <-]. exists []. by rewrite app_nil_r. Qed.

Lemma extends_throw {A : Type} (e : exn) : extends World (throw World e : R A).
Proof. intros st r st' [= <- <-]. exists []. by rewrite app_nil_r. Qed.

Lemma extends_now {A : Type} (x : result A) : extends World (now World x).
Proof. intros st r st' [= <- <-]. exists []. by rewrite app_nil_r. Qed.

Lemma extends_request (q : HttpRequest) : extends World (request World send q).
Proof.
  intros st r st'. unfold request. destruct (send q st.1) as [res w].
  intros [= <- <-]. by exists [q].
Qed.

Lemma extends_token (client : World → answer string * World) :
  extends World (λ st, let '(t, w) := client st.1 in (awaited t, (w, st.2))).
Proof.
  intros st r st'. destruct (client st.1) as [t w].
  intros [= <- <-]. exists []. by rewrite app_nil_r.
Qed.

Lemma extends_create (userId : json) : extends World (create userId).
Proof.
  unfold createFromTopcoder, getTopcoderUserById, createUbahnUser,
    createUserExternalProfile, getM2MToken, getM2MUbahnToken.
  repeat (first [ apply extends_ret | apply extends_request
                | apply extends_token
                | apply extends_bind; [|intros ?]
                | case_match; [apply extends_throw|apply extends_ret] ]).
Qed.

(** [getUserId], step by step. *)
Lemma getUserId_run (userId : json) (w : World) (log : list HttpRequest) :
  lookupUser userId (w, log)
  = match machineTokenForUbahn w with
    | (Rejects status body, w1) => (Raise (Rejected status body), (w1, log))
    | (Resolves tok, w1) =>
        match lookupQuery userId with
        | Raise e => (Raise e, (w1, log))
        | Ok qs =>
            match send (lookupRequest tok qs) w1 with
            | (Rejects status body, w2) =>
                (Raise (Rejected status body), (w2, log ++ [lookupRequest tok qs]))
            | (Resolves ids, w2) =>
                (if isEmpty ids
                 then Raise (userNotFound numberToString userId)
                 else member "id" (index0 ids),
                 (w2, log ++ [lookupRequest tok qs]))
            end
        end
    end.
Proof.
  unfold getUserId, getUserIds, getM2MUbahnToken, mbind, Remote_bind, now,
    request.
  cbn [fst snd]. destruct (machineTokenForUbahn w) as [[tok|status body] w1];
    cbn [awaited]; [|done].
  destruct (lookupQuery userId) as [qs|e]; [|done]. cbn [fst snd].
  destruct (send (lookupRequest tok qs) w1) as [[ids|status body] w2];
    cbn [awaited]; [|done].
  by destruct (isEmpty ids).
Qed.

(** The ways [getUserId] ends: before any request, when a token or the query
    fails, or with the request of the lookup sent. *)
Lemma getUserId_cases (userId : json) (w : World) (log : list HttpRequest) :
  (∃ e w1, lookupUser userId (w, log) = (Raise e, (w1, log))
           ∧ ∀ m, e ≠ ApiError NotFound m)
  ∨ ∃ tok w1 qs res w2,
      machineTokenForUbahn w = (Resolves tok, w1)
      ∧ lookupQuery userId = Ok qs
      ∧ send (lookupRequest tok qs) w1 = (res, w2)
      ∧ lookupUser userId (w, log)
        = (match res with
           | Rejects status body => Raise (Rejected status body)
           | Resolves ids =>
               if isEmpty ids
               then Raise (userNotFound numberToString userId)
               else member "id" (index0 ids)
           end, (w2, log ++ [lookupRequest tok qs])).
Proof.
  rewrite getUserId_run.
  destruct (machineTokenForUbahn w) as [[tok|status body] w1] eqn:Et.
  2: { left. eexists _, _. split; [done|]. by intros m. }
  destruct (encodeQueryString_outcome escape numberToString
              (userIdsQuery config userId) "") as [(qs & -> & _)|[-> _]].
  2: { left. eexists _, _. split; [done|]. by intros m. }
  right.
  destruct (send (lookupRequest tok qs) w1) as [[ids|status body] w2] eqn:Es.
  - by exists tok, w1, qs, (Resolves ids), w2.
  - by exists tok, w1, qs, (Rejects status body), w2.
Qed.

(** X26.  When the lookup of [getUserId] answers with a list whose first
    entry is an object, [ensureUbahnUserId] returns the [id] of that entry
    and has sent this one request: nothing is created. *)
Theorem ensureUbahnUserId_found (userId : json) (w w1 w2 : World)
    (log : list HttpRequest) (tok qs : string)
    (first : list (string * json)) (others : list json) :
  machineTokenForUbahn w = (Resolves tok, w1) →
  lookupQuery userId = Ok qs →
  send (lookupRequest tok qs) w1 = (Resolves (JArr (JObj first :: others)), w2) →
  ensure userId (w, log)
  = (Ok (lookupField "id" first), (w2, log ++ [lookupRequest tok qs])).
Proof.
  intros Ht Hq Hs. unfold ensureUbahnUserId, tryCatch.
  by rewrite getUserId_run, Ht, Hq, Hs.
Qed.

(** X27.  [ensureUbahnUserId] creates nothing unless the lookup was answered
    with an empty body: whatever the services do, it only adds to the
    requests sent, and a [POST] is among those it adds only when the request
    of the lookup resolved to a body that [_.isEmpty] holds empty.  A lookup
    that is rejected, whatever its status, is passed on as it is after this
    one request. *)
Theorem ensureUbahnUserId_creates_only_when_missing (userId : json)
    (w w' : World) (log log' : list HttpRequest) (r : result json) :
  ensure userId (w, log) = (r, (w', log')) →
  ∃ sent,
    log' = log ++ sent
    ∧ ((∃ q, q ∈ sent ∧ req_method q = POST) →
       ∃ tok w1 qs ids w2,
         machineTokenForUbahn w = (Resolves tok, w1)
         ∧ lookupQuery userId = Ok qs
         ∧ send (lookupRequest tok qs) w1 = (Resolves ids, w2)
         ∧ isEmpty ids = true)
    ∧ (∀ tok w1 qs status body w2,
         machineTokenForUbahn w = (Resolves tok, w1) →
         lookupQuery userId = Ok qs →
         send (lookupRequest tok qs) w1 = (Rejects status body, w2) →
         r = Raise (Rejected status body) ∧ w' = w2
         ∧ sent = [lookupRequest tok qs]).
Proof.
  intros Hrun. unfold ensureUbahnUserId, tryCatch in Hrun.
  destruct (getUserId_cases userId w log)
    as [(e & w0 & Hl & He)|(tok & w1 & qs & res & w2 & Ht & Hq & Hs & Hl)];
    rewrite Hl in Hrun.
  - (* nothing was sent *)
    assert (r = Raise e ∧ w' = w0 ∧ log' = log) as (-> & -> & ->).
    { destruct e as [| |[| |] m|]; try (by injection Hrun as <- <- <-).
      by destruct (He m). }
    exists []. rewrite app_nil_r. split_and!; [done| |].
    + intros (q & Hq & _). by apply elem_of_nil in Hq.
    + intros tok w1 qs status body w2 Ht Hq Hs.
      rewrite getUserId_run, Ht, Hq, Hs in Hl. injection Hl as _ _ Hlog.
      apply (f_equal length) in Hlog. rewrite length_app in Hlog. simpl in Hlog.
      lia.
  - destruct res as [ids|status body].
    + destruct (isEmpty ids) eqn:Hempty.
      * (* the lookup came back empty: the handler runs *)
        unfold userNotFound in Hrun.
        destruct (extends_create userId _ _ _ Hrun) as [sent Hsent].
        simpl in Hsent. exists (lookupRequest tok qs :: sent).
        split_and!.
        -- by rewrite Hsent, <- app_assoc.
        -- intros _. by exists tok, w1, qs, ids, w2.
        -- intros tok' w1' qs' status body w2' Ht' Hq' Hs'.
           rewrite Ht in Ht'. injection Ht' as <- <-.
           rewrite Hq in Hq'. injection Hq' as <-.
           rewrite Hs in Hs'. done.
      * (* the lookup came back with entries *)
        assert (∃ x, member "id" (index0 ids) = x
                     ∧ (∀ m, x ≠ Raise (ApiError NotFound m))) as (x & Hx & Hnf).
        { eexists. split; [done|]. intros m. unfold member.
          destruct (index0 ids); discriminate. }
        rewrite Hx in Hrun.
        assert (r = x ∧ w' = w2 ∧ log' = log ++ [lookupRequest tok qs])
          as (-> & -> & ->).
        { destruct x as [a|[| |[| |] m|]]; try (by injection Hrun as <- <- <-).
          by destruct (Hnf m). }
        exists [lookupRequest tok qs]. split_and!; [done| |].
        -- intros (q & Hin & Hpost). apply list_elem_of_singleton in Hin as ->.
           done.
        -- intros tok' w1' qs' status body w2' Ht' Hq' Hs'.
           rewrite Ht in Ht'. injection Ht' as <- <-.
           rewrite Hq in Hq'. injection Hq' as <-.
           rewrite Hs in Hs'. done.
    + (* the lookup was rejected *)
      injection Hrun as <- <- <-.
      exists [lookupRequest tok qs]. split_and!; [done| |].
      * intros (q & Hin & Hpost). apply list_elem_of_singleton in Hin as ->.
        done.
      * intros tok' w1' qs' status' body' w2' Ht' Hq' Hs'.
        rewrite Ht in Ht'. injection Ht' as <- <-.
        rewrite Hq in Hq'. injection Hq' as <-.
        rewrite Hs in Hs'. by injection Hs' as <- <- <-.
Qed.


End RemoteFacts.

(** * The further properties at sample inputs *)




(** A stored period of two weeks, and a patch of its duration to three. *)
Lemma updateDuration_lone_edit_of_complete_triple_witness :
  updateDuration (host := sampleHost) (triple jan01 jan15 (Num 2))
    {[ "duration" := Num 3 ]}
  = Throw ConflictError.
Proof.
  destruct (updateDuration_lone_edit_of_complete_triple (host := sampleHost)
              jan01 jan15 2) as (Hduration & _ & _).
  - vm_compute. reflexivity.
  - vm_compute. reflexivity.
  - vm_compute. reflexivity.
  - lia.
  - apply Hduration; [vm_compute; reflexivity|discriminate].
Defined.

(** A stored start date, and a patch of the duration to two weeks. *)
Lemma updateDuration_lone_duration_recomputes_end_witness :
  updateDuration (host := sampleHost) {[ "startDate" := jan01 ]}
    {[ "duration" := Num 2 ]}
  = Return (triple jan01 jan15 (Num 2)).
Proof.
  etransitivity.
  - apply (updateDuration_lone_duration_recomputes_end (host := sampleHost)
             {[ "startDate" := jan01 ]} (Num 2)).
    + vm_compute. reflexivity.
    + vm_compute. reflexivity.
    + vm_compute. reflexivity.
    + vm_compute. discriminate.
  - vm_compute. reflexivity.
Defined.

(** A patch that changes the end date. *)
Lemma updateDuration_never_falls_through_witness :
  (1 ≤ size ({[ "endDate" := jan15 ]} : object))%nat.
Proof.
  apply (proj2 (updateDuration_never_falls_through (host := sampleHost)
                  (triple jan01 jan08 (Num 1)) {[ "endDate" := jan15 ]})).
  vm_compute. discriminate.
Defined.


(** The payments of the sample state. *)
Lemma aggregate_nonnegative_witness :
  0 ≤ data_daysPaid (aggregate ["Active"] (work_period_payments sampleStatePaid))
  ∧ 0 ≤ data_paymentTotal
          (aggregate ["Active"] (work_period_payments sampleStatePaid)).
Proof.
  apply (aggregate_nonnegative ["Active"] (work_period_payments sampleStatePaid)).
  intros p Hp. simpl in Hp.
  repeat (apply elem_of_cons in Hp as [->|Hp]; [simpl; lia|]).
  by apply elem_of_nil in Hp.
Defined.


Lemma pass_frame_witness :
  work_period_payments sampleStateAfter = work_period_payments sampleStatePaid
  ∧ (∀ w, w ≠ "w1" →
          work_periods sampleStateAfter !! w = work_periods sampleStatePaid !! w)
  ∧ ∃ ms es, bus sampleStateAfter = bus sampleStatePaid ++ ms
             ∧ dispatched sampleStateAfter = dispatched sampleStatePaid ++ es
             ∧ length ms = length es
             ∧ (length ms ≤ 1)%nat.
Proof.
  apply (pass_frame ["Active"] samplePolicy sampleConfig samplePayload
           sampleStatePaid sampleStateAfter).
  vm_compute. reflexivity.
Defined.

Lemma logs_stay_aligned_witness : aligned sampleStateAfter.
Proof.
  apply (proj2 (logs_stay_aligned ["Active"] samplePolicy sampleConfig)
           samplePayload sampleStatePaid sampleStateAfter).
  - reflexivity.
  - vm_compute. reflexivity.
Defined.

(** A number among the strings of the source. *)
Lemma checkIfExists_errors_witness :
  checkIfExists sampleToLowerCase (JArr [ JStr "java"; JNum (Finite 1) ])
    (JBool true)
  = Raise TypeError.
Proof.
  apply (proj1 (proj2 (checkIfExists_errors sampleToLowerCase))
           [ JStr "java"; JNum (Finite 1) ] (JNum (Finite 1))).
  - apply list_elem_of_further, list_elem_of_here.
  - intros s. discriminate.
Defined.

Lemma checkIfExists_words_witness :
  checkIfExists sampleToLowerCase (JArr []) (JStr "Java Script") = Ok false.
Proof.
  destruct (checkIfExists_words sampleToLowerCase [] "Java Script")
    as (b & Hb & _ & Hempty).
  rewrite (Hempty eq_refl) in Hb. exact Hb.
Defined.

Lemma checkIfExists_source_witness :
  checkIfExists sampleToLowerCase (JArr [ JStr "JAVA" ]) (JStr "Java Script")
  = checkIfExists sampleToLowerCase (JArr [ JStr "java" ]) (JStr "Java Script").
Proof.
  apply (proj1 (checkIfExists_source sampleToLowerCase ["JAVA"] ["java"]
                  (JStr "Java Script"))).
  vm_compute. reflexivity.
Defined.

(** An element with a [null] and an empty array. *)
Lemma clearObject_array_witness :
  ∃ elements' e',
    clearObject (DArray [ [ ("skills", JArr []); ("title", JNull) ] ])
    = DArray elements'
    ∧ elements' !! 0%nat = Some e'
    ∧ ("skills", JArr []) ∈ e'.
Proof.
  destruct (clearObject_array [ [ ("skills", JArr []); ("title", JNull) ] ])
    as (elements' & Hclear & _ & Hat).
  destruct (Hat 0%nat [ ("skills", JArr []); ("title", JNull) ] eq_refl)
    as (e' & He' & _ & _ & Hkeep).
  exists elements', e'. split_and!; [exact Hclear|exact He'|].
  apply Hkeep. apply list_elem_of_here.
Defined.

Lemma clearObject_twice_witness :
  clearObject (clearObject (DObject [ ("skills", JArr []); ("title", JStr "dev") ]))
  = clearObject (DObject [ ("skills", JArr []); ("title", JStr "dev") ]).
Proof.
  apply (proj1 clearObject_twice). discriminate.
Defined.

(** A header that is none of the seven. *)
Lemma setResHeaders_frame_witness :
  setResHeaders sampleStringify sampleRequest
    {[ "Content-Type" := HStr "application/json" ]} sampleResult
    !! "Content-Type"
  = ({[ "Content-Type" := HStr "application/json" ]} : gmap string headerValue)
      !! "Content-Type".
Proof.
  apply (proj2 (setResHeaders_frame sampleStringify sampleRequest
                  {[ "Content-Type" := HStr "application/json" ]} sampleResult)).
  unfold pageHeaders. intros Hin.
  repeat (apply elem_of_cons in Hin as [Hin|Hin]; [discriminate Hin|]).
  by apply elem_of_nil in Hin.
Defined.

Lemma setResHeaders_total_pages_witness :
  ∃ n, setResHeaders sampleStringify sampleRequest ∅ sampleResult
         !! "X-Total-Pages"
       = Some (HNum (Finite n))
       ∧ (n - 1) * perPage sampleResult < total sampleResult
           ≤ n * perPage sampleResult.
Proof.
  apply (setResHeaders_total_pages sampleStringify sampleRequest ∅ sampleResult).
  - reflexivity.
  - simpl. lia.
Defined.

Lemma setResHeaders_navigation_witness :
  setResHeaders sampleStringify sampleRequest ∅ sampleResult !! "X-Prev-Page"
  = Some (HNum (Finite 1))
  ∧ setResHeaders sampleStringify sampleRequest ∅ sampleResult !! "X-Next-Page"
    = Some (HNum (Finite 3)).
Proof.
  destruct (setResHeaders_navigation sampleStringify sampleRequest ∅ sampleResult)
    as (_ & _ & _ & Hprev & Hnext).
  - reflexivity.
  - simpl. lia.
  - split; [exact Hprev|exact Hnext].
Defined.

Lemma setResHeaders_link_witness :
  ∃ n, (n - 1) * perPage sampleResult < total sampleResult
         ≤ n * perPage sampleResult
       ∧ setResHeaders sampleStringify sampleRequest ∅ sampleResult !! "Link"
         = Some (HStr (String.concat ", "
                   ((λ pr, linkValue sampleStringify sampleRequest pr.1 pr.2)
                    <$> [ (Finite 1, "first"); (Finite n, "last");
                          (Finite 1, "prev"); (Finite 3, "next") ]))).
Proof.
  destruct (setResHeaders_link sampleStringify sampleRequest ∅ sampleResult)
    as (n & Hn & Hlink).
  - reflexivity.
  - simpl. lia.
  - exists n. split; [exact Hn|]. rewrite Hlink.
    assert (n = 3) as -> by (simpl in Hn; lia).
    reflexivity.
Defined.

(** A [null] inside an array inside the object. *)
Lemma encodeQueryString_throws_witness :
  encodeQueryString sampleEscape sampleNumberToString
    (JObj [ ("ids", JArr [ JNum (Finite 1); JNull ]) ]) ""
  = Raise TypeError.
Proof.
  apply (proj2 (proj1 (encodeQueryString_throws sampleEscape sampleNumberToString
                         (JObj [ ("ids", JArr [ JNum (Finite 1); JNull ]) ]) ""))).
  right. reflexivity.
Defined.

Lemma encodeQueryString_empty_witness :
  encodeQueryString sampleEscape sampleNumberToString
    (JObj [ ("filter", JObj []); ("page", JNum (Finite 2)) ]) ""
  = Ok "&page=2".
Proof.
  destruct (encodeQueryString_empty sampleEscape sampleNumberToString ""
              "filter" [ ("page", JNum (Finite 2)) ] "page=2")
    as [_ Hrest].
  destruct Hrest as [Hobject _].
  - discriminate.
  - vm_compute. reflexivity.
  - exact Hobject.
Defined.

(** The query of [getUserIds]. *)
Lemma encodeQueryString_leaves_witness :
  encodeQueryString sampleEscape sampleNumberToString
    (userIdsQuery sampleApiConfig (JNum (Finite 8547899))) ""
  = Ok sampleQueryString.
Proof.
  etransitivity.
  - apply (encodeQueryString_leaves sampleEscape sampleNumberToString
             (userIdsQuery sampleApiConfig (JNum (Finite 8547899))) "").
    + vm_compute. reflexivity.
    + vm_compute. reflexivity.
    + vm_compute. reflexivity.
  - vm_compute. reflexivity.
Defined.

(** A lookup that finds the user. *)
Lemma ensureUbahnUserId_found_witness :
  sampleEnsure [ Resolves (JArr [ JObj [ ("id", JStr "u-1") ] ]) ]
  = (Ok (JStr "u-1"),
     ([], [ userIdsRequest sampleApiConfig "ubahn" sampleQueryString ])).
Proof.
  apply (ensureUbahnUserId_found (list (answer json)) sampleSend
           (sampleToken "m2m") (sampleToken "ubahn") sampleApiConfig
           sampleEscape sampleNumberToString (JNum (Finite 8547899))
           [ Resolves (JArr [ JObj [ ("id", JStr "u-1") ] ]) ]
           [ Resolves (JArr [ JObj [ ("id", JStr "u-1") ] ]) ]
           [] [] "ubahn" sampleQueryString [ ("id", JStr "u-1") ] []).
  - reflexivity.
  - vm_compute. reflexivity.
  - reflexivity.
Defined.

(** A lookup that is rejected with the status 404. *)
Lemma ensureUbahnUserId_creates_only_when_missing_witness :
  ∃ sent,
    [ userIdsRequest sampleApiConfig "ubahn" sampleQueryString ] = [] ++ sent
    ∧ sent = [ userIdsRequest sampleApiConfig "ubahn" sampleQueryString ].
Proof.
  destruct (ensureUbahnUserId_creates_only_when_missing (list (answer json))
              sampleSend (sampleToken "m2m") (sampleToken "ubahn")
              sampleApiConfig sampleEscape sampleNumberToString
              (JNum (Finite 8547899))
              [ Rejects (Some 404) JNull ] [] []
              [ userIdsRequest sampleApiConfig "ubahn" sampleQueryString ]
              (Raise (Rejected (Some 404) JNull)))
    as (sent & Hlog & _ & Hrejected).
  - vm_compute. reflexivity.
  - exists sent. split; [exact Hlog|].
    apply (Hrejected "ubahn" [ Rejects (Some 404) JNull ] sampleQueryString
             (Some 404) JNull []).
    + reflexivity.
    + vm_compute. reflexivity.
    + reflexivity.
Defined.

